(** * OCR assistant: the image-to-text result pipeline of [app.py]

    A shallow embedding of the non-UI functions of [app.py]
    ([preprocess_image], [perform_ocr], [draw_boxes], [build_sidebar],
    [text_summary]) together with the Python built-ins they rest on
    ([str.strip], [str.splitlines], [str.join], [int], [float]).

    - A Python [str] is a sequence of Unicode code points: [list N].
    - A Python [float] is an IEEE binary64 value, kept as a dyadic number
      [m * 2^e], an infinity or a NaN.
    - A raised exception is a value of [pyres].
    - PIL images are mutable objects: they live in a store indexed by
      references, and the PIL operations are an interface ([PIL]). *)

From Stdlib Require Import ZArith NArith Lia Ascii String.
From stdpp Require Import base option list gmap.

Local Open Scope N_scope.

(** ** Python strings *)

Definition char := N.
Definition str := list char.

(** Code points of an ASCII literal. *)
Definition u (s : string) : str := map N_of_ascii (list_ascii_of_string s).

Definition LF : char := 10.
Definition CR : char := 13.

(** [Py_UNICODE_ISSPACE]: the characters [str.strip()] removes. *)
Definition isspace (c : char) : bool :=
  ((9 <=? c) && (c <=? 13)) || ((28 <=? c) && (c <=? 32))
  || (c =? 0x85) || (c =? 0xA0) || (c =? 0x1680)
  || ((0x2000 <=? c) && (c <=? 0x200A))
  || (c =? 0x2028) || (c =? 0x2029) || (c =? 0x202F) || (c =? 0x205F)
  || (c =? 0x3000).

(** [Py_UNICODE_ISLINEBREAK]: the line boundaries of [str.splitlines()]. *)
Definition islinebreak (c : char) : bool :=
  ((10 <=? c) && (c <=? 13)) || ((28 <=? c) && (c <=? 30))
  || (c =? 0x85) || (c =? 0x2028) || (c =? 0x2029).

Fixpoint lstrip (s : str) : str :=
  match s with
  | [] => []
  | c :: s' => if isspace c then lstrip s' else s
  end.

Definition rstrip (s : str) : str := reverse (lstrip (reverse s)).

(** [s.strip()] *)
Definition strip (s : str) : str := rstrip (lstrip s).

(** [sep.join(parts)] *)
Fixpoint join (sep : str) (parts : list str) : str :=
  match parts with
  | [] => []
  | p :: rest =>
      match rest with
      | [] => p
      | _ :: _ => p ++ sep ++ join sep rest
      end
  end.

(** [s.splitlines()], scanning left to right; [cur] is the line being
    read.  A line is emitted at each line boundary ([CR LF] counts as one)
    and at the end of the string when characters are pending. *)
Fixpoint splitlines_from (cur : str) (s : str) : list str :=
  match s with
  | [] => match cur with [] => [] | _ :: _ => [cur] end
  | c :: rest =>
      if islinebreak c then
        match rest with
        | c' :: rest' =>
            if (c =? CR) && (c' =? LF)
            then cur :: splitlines_from [] rest'
            else cur :: splitlines_from [] rest
        | [] => cur :: splitlines_from [] rest
        end
      else splitlines_from (cur ++ [c]) rest
  end.

Definition splitlines (s : str) : list str := splitlines_from [] s.

(** Truth value of a string: non-empty. *)
Definition truthy (s : str) : bool :=
  match s with [] => false | _ :: _ => true end.

(** ** Python numbers *)

Local Open Scope Z_scope.

(** A binary64 value: [Finite m e] is [m * 2^e]. *)
Inductive pyfloat :=
| Finite (m e : Z)
| Inf (negative : bool)
| NaN.

Inductive exn :=
| TypeError | ValueError | OverflowError | IndexError
| OSError | NotImplementedError.

Inductive pyres (A : Type) :=
| Ok (a : A)
| Raise (e : exn).
Arguments Ok {A} a.
Arguments Raise {A} e.

#[global] Instance pyres_ret : MRet pyres := fun _ a => Ok a.
#[global] Instance pyres_bind : MBind pyres := fun _ _ f r =>
  match r with Ok a => f a | Raise e => Raise e end.

(** A numeric value as the engine may hand it back: a (NumPy) integer,
    a (NumPy) float, or an object that is no number at all. *)
Inductive pyval :=
| PyInt (z : Z)
| PyFloat (f : pyfloat)
| PyNone.

(** [int(f)] for a float: the fractional part is discarded. *)
Definition float_to_int (f : pyfloat) : pyres Z :=
  match f with
  | Finite m e =>
      if 0 <=? e then Ok (m * 2 ^ e) else Ok (Z.quot m (2 ^ (- e)))
  | Inf _ => Raise OverflowError
  | NaN => Raise ValueError
  end.

(** [int(v)] *)
Definition py_int (v : pyval) : pyres Z :=
  match v with
  | PyInt z => Ok z
  | PyFloat f => float_to_int f
  | PyNone => Raise TypeError
  end.

(** [float(z)] for an integer: round to 53 significant bits, ties to
    even; [OverflowError] from [2^1024] on. *)
Definition int_to_float (z : Z) : pyres pyfloat :=
  let a := Z.abs z in
  let n := if a =? 0 then 0 else Z.log2 a + 1 in
  if n <=? 53 then Ok (Finite z 0)
  else
    let sh := n - 53 in
    let q := Z.shiftr a sh in
    let r := Z.land a (Z.ones sh) in
    let half := 2 ^ (sh - 1) in
    let q' := if (half <? r) || ((r =? half) && Z.odd q) then q + 1 else q in
    if 2 ^ 1024 <=? q' * 2 ^ sh then Raise OverflowError
    else Ok (Finite (Z.sgn z * q') sh).

(** [float(v)] *)
Definition py_float (v : pyval) : pyres pyfloat :=
  match v with
  | PyInt z => int_to_float z
  | PyFloat f => Ok f
  | PyNone => Raise TypeError
  end.

(** [a == b] on floats. *)
Definition float_eqb (a b : pyfloat) : bool :=
  match a, b with
  | Finite m1 e1, Finite m2 e2 =>
      let k := Z.min e1 e2 in
      m1 * 2 ^ (e1 - k) =? m2 * 2 ^ (e2 - k)
  | Inf s1, Inf s2 => Bool.eqb s1 s2
  | _, _ => false
  end.

(** [a != b] on floats. *)
Definition float_neb (a b : pyfloat) : bool := negb (float_eqb a b).

Definition f_1_0 : pyfloat := Finite 1 0.
Definition f_3_7 : pyfloat := Finite 4165829655317709 (-50).
Definition f_5_2 : pyfloat := Finite 5854679515581645 (-50).
Definition f_0_91 : pyfloat := Finite 8196551321814303 (-53).
Definition f_0_40 : pyfloat := Finite 3602879701896397 (-53).

(** ** The result model *)

Record OcrResult := mkOcrResult {
  bbox : list (list Z);
  text : str;
  confidence : pyfloat;
}.

(** One raw detection of [reader.readtext]: [(bbox, text, confidence)]. *)
Record RawDetection := mkRaw {
  raw_bbox : list (list pyval);
  raw_text : str;
  raw_confidence : pyval;
}.

(** [tuple(map(int, point))] *)
Definition int_point (point : list pyval) : pyres (list Z) := mapM py_int point.

(** The body of the comprehension of [perform_ocr]. *)
Definition to_result (raw : RawDetection) : pyres OcrResult :=
  b ← mapM int_point (raw_bbox raw);
  c ← py_float (raw_confidence raw);
  mret (mkOcrResult b (strip (raw_text raw)) c).

(** [perform_ocr], from [raw_results] on (the engine call is its input). *)
Definition perform_ocr (raw_results : list RawDetection) : pyres (list OcrResult) :=
  mapM to_result raw_results.

(** [text_summary] *)
Definition text_summary (results : list OcrResult) : str :=
  let text := join [LF] (filter (fun t => truthy t = true) (map text results)) in
  let lines := map strip (filter (fun line => truthy (strip line) = true) (splitlines text)) in
  join [LF] lines.

(** The second comprehension of [text_summary]:
    [[line.strip() for line in lines if line.strip()]]. *)
Definition clean (lines : list str) : list str :=
  map strip (filter (fun line => truthy (strip line) = true) lines).

(** The lines [text_summary] joins. *)
Definition summary_lines (results : list OcrResult) : list str :=
  clean (splitlines (join [LF] (filter (fun t => truthy t = true) (map text results)))).

(** No line boundary inside. *)
Definition nobreak (s : str) : Prop := Forall (fun c => islinebreak c = false) s.

(** What the lines of a summary look like. *)
Definition clean_line (l : str) : Prop := l <> [] /\ strip l = l /\ nobreak l.

(** A raw detection is accepted when every coordinate and the confidence
    convert. *)
Definition is_Ok {A} (r : pyres A) : bool :=
  match r with Ok _ => true | Raise _ => false end.

Definition coercible (raw : RawDetection) : bool :=
  forallb (forallb (fun v => is_Ok (py_int v))) (raw_bbox raw)
  && is_Ok (py_float (raw_confidence raw)).

(** The value of a raw coordinate is above [-1]. *)
Definition above_minus_one (v : pyval) : Prop :=
  match v with
  | PyInt z => 0 <= z
  | PyFloat (Finite m e) => if 0 <=? e then 0 <= m else - 2 ^ (- e) < m
  | _ => False
  end.

(** [z] is the integer part of [m * 2^e], towards zero. *)
Definition integer_part (m e z : Z) : Prop :=
  if 0 <=? e then z = m * 2 ^ e
  else (0 <= m -> z * 2 ^ (- e) <= m < (z + 1) * 2 ^ (- e))
       /\ (m <= 0 -> (z - 1) * 2 ^ (- e) < m <= z * 2 ^ (- e)).

(** [int(v) = z] and what that means for [v]. *)
Definition truncates_to (v : pyval) (z : Z) : Prop :=
  py_int v = Ok z
  /\ match v with
     | PyInt z' => z = z'
     | PyFloat (Finite m e) => integer_part m e z
     | _ => False
     end.

(** Rounding to the nearest integer, as the specification words it
    (ties upwards); kept apart from [float_to_int] to compare the two. *)
Definition spec_round_nearest (f : pyfloat) : pyres Z :=
  match f with
  | Finite m e =>
      if 0 <=? e then Ok (m * 2 ^ e)
      else Ok ((2 * m + 2 ^ (- e)) / 2 ^ (- e + 1))
  | Inf _ => Raise OverflowError
  | NaN => Raise ValueError
  end.

(** The specification's [split_lines_as_fake_results]: each line of a
    transcript becomes the text of a raw detection with a unit box. *)
Definition split_lines_as_fake_results (s : str) : list RawDetection :=
  map (fun line =>
         mkRaw [[PyInt 0; PyInt 0]; [PyInt 1; PyInt 0]; [PyInt 1; PyInt 1]; [PyInt 0; PyInt 1]]
               line (PyFloat f_1_0))
      (splitlines s).

(** ** The sidebar *)

Local Open Scope string_scope.
Local Open Scope Z_scope.

(** The Streamlit widgets: a widget returns its initial value until the
    user changes it ([None]: left as it is). *)
Definition multiselect (options default : list string)
    (edit : option (list string)) : list string :=
  match edit with None => default | Some chosen => chosen end.

Definition toggle (value : bool) (edit : option bool) : bool :=
  match edit with None => value | Some b => b end.

Definition slider (value : pyfloat) (edit : option pyfloat) : pyfloat :=
  match edit with None => value | Some x => x end.

Record SidebarEdits := mkEdits {
  edit_languages : option (list string);
  edit_grayscale : option bool;
  edit_invert : option bool;
  edit_contrast : option pyfloat;
}.

Definition f_1_4 : pyfloat := Finite 3152519739159347 (-51).

(** [a or b] on tuples. *)
Definition tuple_or {A} (a b : list A) : list A :=
  match a with [] => b | _ :: _ => a end.

(** [build_sidebar] *)
Definition build_sidebar (ui : SidebarEdits) : list string * bool * bool * pyfloat :=
  let languages := multiselect ["vi"; "en"] ["vi"; "en"] (edit_languages ui) in
  let grayscale := toggle true (edit_grayscale ui) in
  let invert := toggle false (edit_invert ui) in
  let contrast := slider f_1_4 (edit_contrast ui) in
  (tuple_or languages ["vi"], grayscale, invert, contrast).

(** The languages [main] hands to [perform_ocr], hence to the engine. *)
Definition engine_languages (ui : SidebarEdits) : list string :=
  (build_sidebar ui).1.1.1.

(** ** PIL images *)

(** What [app.py] uses of PIL, as functions on pixel data (mode and size
    included).  Conversion to a mode always gives an image; the other
    operations may raise. *)
Class PIL := {
  pixels : Type;
  px_convert : string -> pixels -> pixels;
  px_invert : pixels -> pyres pixels;
  px_contrast : pyfloat -> pixels -> pyres pixels;
  px_polygon : list (list Z) -> string -> pixels -> pyres pixels;
  px_text : Z * Z -> str -> string -> pixels -> pyres pixels;
}.

(** An image object is a reference into the store of pixel buffers. *)
Abbreviation Image := positive.
Abbreviation store := (gmap positive pixels).

(** A computation on the store that returns or raises. *)
Definition M `{PIL} (A : Type) : Type := store -> store * pyres A.

Definition ret `{PIL} {A} (a : A) : M A := fun s => (s, Ok a).

Definition bind `{PIL} {A B} (m : M A) (k : A -> M B) : M B := fun s =>
  match m s with
  | (s', Ok a) => k a s'
  | (s', Raise e) => (s', Raise e)
  end.

Definition lift `{PIL} {A} (r : pyres A) : M A := fun s => (s, r).

Notation "x <- m ;; k" := (bind m (fun x => k))
  (at level 100, m at next level, right associativity).

(** An operation that returns a new image computed from [im].  A
    reference held by the program always denotes an image of the store;
    the last case is there for a reference into some other store. *)
Definition new_from `{PIL} (f : pixels -> pyres pixels) (im : Image) : M Image :=
  fun s =>
    match s !! im with
    | Some px =>
        match f px with
        | Ok px' => let r := fresh (dom s) in (<[r := px']> s, Ok r)
        | Raise e => (s, Raise e)
        end
    | None => (s, Raise ValueError)
    end.

(** An operation that draws on [im] itself. *)
Definition draw_on `{PIL} (f : pixels -> pyres pixels) (im : Image) : M unit :=
  fun s =>
    match s !! im with
    | Some px =>
        match f px with
        | Ok px' => (<[im := px']> s, Ok tt)
        | Raise e => (s, Raise e)
        end
    | None => (s, Raise ValueError)
    end.

Definition Image_convert `{PIL} (mode : string) : Image -> M Image :=
  new_from (fun px => Ok (px_convert mode px)).
Definition Image_copy `{PIL} : Image -> M Image := new_from Ok.
Definition ImageOps_grayscale `{PIL} : Image -> M Image := Image_convert "L".
Definition ImageOps_invert `{PIL} : Image -> M Image := new_from px_invert.
Definition Contrast_enhance `{PIL} (im : Image) (factor : pyfloat) : M Image :=
  new_from (px_contrast factor) im.
Definition Draw_polygon `{PIL} (im : Image) (xy : list (list Z)) (outline : string) : M unit :=
  draw_on (px_polygon xy outline) im.
Definition Draw_text `{PIL} (im : Image) (xy : Z * Z) (t : str) (fill : string) : M unit :=
  draw_on (px_text xy t fill) im.

(** [preprocess_image] *)
Definition preprocess_image `{PIL} (image : Image) (grayscale invert : bool)
    (contrast : pyfloat) : M Image :=
  let processed := image in
  processed <- (if grayscale then ImageOps_grayscale processed else ret processed) ;;
  processed <- (if invert then ImageOps_invert processed else ret processed) ;;
  processed <- (if float_neb contrast f_1_0
                then Contrast_enhance processed contrast else ret processed) ;;
  ret processed.

(** [x, y = bbox[0]] *)
Definition first_vertex (b : list (list Z)) : pyres (Z * Z) :=
  match b with
  | [] => Raise IndexError
  | [x; y] :: _ => Ok (x, y)
  | _ :: _ => Raise ValueError
  end.

(** [for x in xs: body(x)] *)
Fixpoint for_each `{PIL} {A} (xs : list A) (body : A -> M unit) : M unit :=
  match xs with
  | [] => ret tt
  | x :: rest => _ <- body x ;; for_each rest body
  end.

(** [draw_boxes].  [ImageDraw.Draw(preview)] is the drawing handle of
    [preview]: its [polygon] and [text] write into [preview]. *)
Definition draw_boxes `{PIL} (image : Image) (results : list OcrResult) : M Image :=
  converted <- Image_convert "RGB" image ;;
  preview <- Image_copy converted ;;
  _ <- for_each results (fun result =>
         _ <- Draw_polygon preview (bbox result) "lime" ;;
         if truthy (text result) then
           xy <- lift (first_vertex (bbox result)) ;;
           Draw_text preview (xy.1, xy.2 - 12) (text result) "yellow"
         else ret tt) ;;
  ret preview.

(** [m] changes the pixel data of no image but [im]. *)
Definition only_touches `{PIL} {A} (im : Image) (m : M A) : Prop :=
  forall (s : store) l, l <> im -> (m s).1 !! l = s !! l.

(** [m] changes no existing image, and an image it returns is new. *)
Definition allocates `{PIL} (m : M Image) : Prop :=
  forall (s : store),
    (forall l p, s !! l = Some p -> (m s).1 !! l = Some p)
    /\ (forall r, (m s).2 = Ok r -> s !! r = None).

(** A single-row raster as an instance of the interface, to run the
    functions on: pixel data is the list of the row's intensities, a
    polygon marks the columns of its vertices, a label marks its anchor. *)
Definition mark (x : Z) (row : list Z) : list Z :=
  if 0 <=? x then <[Z.to_nat x := 255]> row else row.

Definition row_PIL : PIL := {|
  pixels := list Z;
  px_convert := fun _ row => row;
  px_invert := fun row => Ok (map (fun v => 255 - v) row);
  px_contrast := fun _ _ => Raise NotImplementedError;
  px_polygon := fun xy _ row =>
    match xy with
    | [] | [_] => Raise ValueError
    | _ => Ok (foldr (fun pt r => match pt with x :: _ => mark x r | [] => r end) row xy)
    end;
  px_text := fun xy _ _ row => Ok (mark xy.1 row);
|}.

(** ** Descriptions used to state what the functions compute *)

(** A result read back as a raw detection: integer coordinates, the
    text, the confidence as a float. *)
Definition raw_of (o : OcrResult) : RawDetection :=
  mkRaw (map (map PyInt) (bbox o)) (text o) (PyFloat (confidence o)).

(** The pixel data [preprocess_image] computes, as a function of the
    pixel data of its input: grey scale, then inversion, then contrast. *)
Definition preprocess_px `{PIL} (grayscale invert : bool) (contrast : pyfloat)
    (px : pixels) : pyres pixels :=
  p1 ← (if grayscale then Ok (px_convert "L" px) else Ok px);
  p2 ← (if invert then px_invert p1 else Ok p1);
  if float_neb contrast f_1_0 then px_contrast contrast p2 else Ok p2.

(** What one result adds to the picture: its outline, then its label
    twelve pixels above the first vertex when the text is not empty. *)
Definition render_one `{PIL} (result : OcrResult) (px : pixels) : pyres pixels :=
  p1 ← px_polygon (bbox result) "lime" px;
  if truthy (text result) then
    xy ← first_vertex (bbox result);
    px_text (xy.1, xy.2 - 12) (text result) "yellow" p1
  else Ok p1.

(** The pixel data [draw_boxes] computes from the converted base image:
    the results drawn one after the other. *)
Fixpoint render_px `{PIL} (results : list OcrResult) (px : pixels) : pyres pixels :=
  match results with
  | [] => Ok px
  | result :: rest => p ← render_one result px; render_px rest p
  end.

(** The computation [m], run in [s], ends as [r] does: it returns an
    image holding the pixel data [r] gives, or raises what [r] raises. *)
Definition computes `{PIL} (r : pyres pixels) (m : M Image) (s : store) : Prop :=
  match r with
  | Ok px' => exists s' i, m s = (s', Ok i) /\ s' !! i = Some px'
  | Raise e => exists s', m s = (s', Raise e)
  end.

(** The drawing [m], run in [s], ends as [r] does: it leaves the pixel
    data [r] gives in the image [im], or raises what [r] raises. *)
Definition draws `{PIL} (r : pyres pixels) (m : M unit) (im : Image) (s : store) : Prop :=
  match r with
  | Ok out => exists s', m s = (s', Ok tt) /\ s' !! im = Some out
  | Raise e => exists s', m s = (s', Raise e)
  end.

(** ** The page *)

(** What [main] has around it besides PIL: the uploaded file and its
    decoding by [Image.open], the EasyOCR module ([None]: not installed)
    whose [Reader(languages, gpu=False)] gives the [readtext] function of
    a reader, and the formatting [f"{c * 100:.1f}%"] of a confidence. *)
Class Host `{PIL} := {
  upload : Type;
  open_px : upload -> pyres pixels;
  easyocr_Reader : option (list string -> pyres (pixels -> pyres (list RawDetection)));
  percent : pyfloat -> str;
}.

Inductive heading := HOriginal | HProcessed | HBoxes | HExtracted | HDetails.

(** A row of the detail table: text, confidence, coordinates. *)
Record Row := mkRow {
  cell_text : str;
  cell_confidence : str;
  cell_bbox : list (list Z);
}.

(** The elements [main] writes to the page.  Constant labels and
    messages are left out; an image is recorded with the pixel data it
    has when it is shown.  The widgets of the sidebar and the file
    uploader are inputs and are not recorded. *)
Inductive element `{PIL} :=
| PageConfig | Title | Intro
| ErrorBox | Info | Spinner | Warning
| Subheader (h : heading)
| Picture (px : pixels)
| TextArea (value : str)
| DownloadButton (data : str) (file_name mime : string)
| Dataframe (rows : list Row)
| Caption.
Arguments PageConfig {_}.
Arguments Title {_}.
Arguments Intro {_}.
Arguments ErrorBox {_}.
Arguments Info {_}.
Arguments Spinner {_}.
Arguments Warning {_}.
Arguments Subheader {_} h.
Arguments Picture {_} px.
Arguments TextArea {_} value.
Arguments DownloadButton {_} data file_name mime.
Arguments Dataframe {_} rows.
Arguments Caption {_}.

Inductive place := Page | Column1 | Column2.

Record world `{PIL} := mkWorld {
  images : store;
  container : place;
  page : list (place * element);
}.
Arguments mkWorld {_} images container page.

(** How a run of the script ends: it returns, [st.stop()] ends it, or
    an exception escapes. *)
Inductive ending (A : Type) :=
| Returned (a : A)
| Stopped
| Raised (e : exn).
Arguments Returned {A} a.
Arguments Stopped {A}.
Arguments Raised {A} e.

Definition App `{PIL} (A : Type) : Type := world -> world * ending A.

Definition app_ret `{PIL} {A} (a : A) : App A := fun w => (w, Returned a).

Definition app_bind `{PIL} {A B} (m : App A) (k : A -> App B) : App B := fun w =>
  match m w with
  | (w', Returned a) => k a w'
  | (w', Stopped) => (w', Stopped)
  | (w', Raised e) => (w', Raised e)
  end.

Notation "x <~ m ;; k" := (app_bind m (fun x => k))
  (at level 100, m at next level, right associativity).

(** A computation on the images, run inside the script. *)
Definition run `{PIL} {A} (m : M A) : App A := fun w =>
  let (s', r) := m (images w) in
  (mkWorld s' (container w) (page w),
   match r with Ok a => Returned a | Raise e => Raised e end).

(** An element written into the current container. *)
Definition st `{PIL} (el : element) : App unit := fun w =>
  (mkWorld (images w) (container w) (page w ++ [(container w, el)]), Returned tt).

(** [st.image(im)] *)
Definition st_image `{PIL} (im : Image) : App unit := fun w =>
  match images w !! im with
  | Some px => st (Picture px) w
  | None => (w, Raised ValueError)
  end.

(** [st.stop()] *)
Definition st_stop `{PIL} {A} : App A := fun w => (w, Stopped).

(** [with col: body] *)
Definition within `{PIL} {A} (col : place) (body : App A) : App A := fun w =>
  match body (mkWorld (images w) col (page w)) with
  | (w', r) => (mkWorld (images w') (container w) (page w'), r)
  end.

(** [Image.open(uploaded_file)]: a new image with the decoded pixel
    data; the decoding, which PIL puts off until the pixels are first
    read, is taken to happen here. *)
Definition Image_open `{Host} (file : upload) : M Image := fun s =>
  match open_px file with
  | Ok px => let r := fresh (dom s) in (<[r := px]> s, Ok r)
  | Raise e => (s, Raise e)
  end.

(** [load_reader]; the reader cached by Streamlit for these languages is
    the one [Reader] gives. *)
Definition load_reader `{Host} (languages : list string)
    : App (pixels -> pyres (list RawDetection)) :=
  match easyocr_Reader with
  | None => _ <~ st ErrorBox ;; st_stop
  | Some Reader => run (lift (Reader languages))
  end.

(** [perform_ocr] on an image: the engine call, then the normalisation
    of its raw results. *)
Definition perform_ocr_image `{Host} (image : Image) (languages : list string)
    : App (list OcrResult) :=
  readtext <~ load_reader languages ;;
  np_img <~ run (fun s => (s, match s !! image with
                              | Some px => Ok px
                              | None => Raise ValueError
                              end)) ;;
  raw_results <~ run (lift (readtext np_img)) ;;
  run (lift (perform_ocr raw_results)).

(** [download_text_button] *)
Definition download_text_button `{PIL} (text : str) (filename : string) : App unit :=
  st (DownloadButton text filename "text/plain").

(** [main]; its local [text] is [txt] here. *)
Definition main `{Host} (ui : SidebarEdits) (uploaded_file : option upload) : App unit :=
  _ <~ st PageConfig ;;
  _ <~ st Title ;;
  _ <~ st Intro ;;
  let '(languages, grayscale, invert, contrast) := build_sidebar ui in
  match uploaded_file with
  | None => st Info
  | Some file =>
      original_image <~ run (Image_open file) ;;
      processed_image <~
        run (preprocess_image original_image grayscale invert contrast) ;;
      results <~ (_ <~ st Spinner ;; perform_ocr_image processed_image languages) ;;
      match results with
      | [] => st Warning
      | _ :: _ =>
          let txt := text_summary results in
          _ <~ within Column1 (
                 _ <~ st (Subheader HOriginal) ;;
                 _ <~ st_image original_image ;;
                 _ <~ st (Subheader HProcessed) ;;
                 st_image processed_image) ;;
          _ <~ within Column2 (
                 _ <~ st (Subheader HBoxes) ;;
                 preview <~ run (draw_boxes original_image results) ;;
                 _ <~ st_image preview ;;
                 _ <~ st (Subheader HExtracted) ;;
                 _ <~ st (TextArea txt) ;;
                 download_text_button txt "ocr_output.txt") ;;
          _ <~ st (Subheader HDetails) ;;
          let rows := map (fun result =>
                             mkRow (text result)
                                   (percent (confidence result))
                                   (bbox result)) results in
          _ <~ st (Dataframe rows) ;;
          st Caption
      end
  end.

(** The settings [main] takes from the sidebar. *)
Definition chosen_grayscale (ui : SidebarEdits) : bool := (build_sidebar ui).1.1.2.
Definition chosen_invert (ui : SidebarEdits) : bool := (build_sidebar ui).1.2.
Definition chosen_contrast (ui : SidebarEdits) : pyfloat := (build_sidebar ui).2.

(** The page of a complete run: what is shown for the original pixel
    data [px0], the preprocessed [px1], the overlay [out] and the
    results. *)
Definition full_page `{Host} (px0 px1 out : pixels) (results : list OcrResult)
    : list (place * element) :=
  [(Page, PageConfig); (Page, Title); (Page, Intro); (Page, Spinner);
   (Column1, Subheader HOriginal); (Column1, Picture px0);
   (Column1, Subheader HProcessed); (Column1, Picture px1);
   (Column2, Subheader HBoxes); (Column2, Picture out);
   (Column2, Subheader HExtracted); (Column2, TextArea (text_summary results));
   (Column2, DownloadButton (text_summary results) "ocr_output.txt" "text/plain");
   (Page, Subheader HDetails);
   (Page, Dataframe (map (fun result =>
                            mkRow (text result)
                                  (percent (confidence result))
                                  (bbox result)) results));
   (Page, Caption)].

(** A host to run [main] on: a file is its row of pixels, every reader
    finds one detection per pixel above 100. *)
Definition row_open (file : list Z) : pyres (list Z) :=
  match file with [] => Raise OSError | _ :: _ => Ok file end.

(** One detection per pixel above 100, its text blank above 200. *)
Definition row_readtext (row : list Z) : pyres (list RawDetection) :=
  Ok (flat_map (fun v =>
        if 100 <? v
        then [mkRaw [[PyInt v; PyInt 0]; [PyInt v; PyInt 1]]
                    (if 200 <? v then u "  " else u " hi ") (PyFloat f_0_91)]
        else []) row).

Definition row_Reader (languages : list string)
    : pyres (list Z -> pyres (list RawDetection)) :=
  match languages with
  | [] => Raise ValueError
  | _ :: _ => Ok row_readtext
  end.

Definition row_Host : @Host row_PIL :=
  @Build_Host row_PIL (list Z) row_open (Some row_Reader) (fun _ => u "?").

(** The same host without EasyOCR. *)
Definition row_Host_bare : @Host row_PIL :=
  @Build_Host row_PIL (list Z) row_open None (fun _ => u "?").

(** Sidebar settings the row model can run: inversion on, contrast 1.0. *)
Definition row_ui : SidebarEdits := mkEdits None None (Some true) (Some f_1_0).

Local Close Scope string_scope.

(** ** The built-ins on concrete inputs *)

Example strip_inner_space : strip (u "  Invoice  #123 " ++ [0x3000%N]) = u "Invoice  #123".
Proof. vm_compute. reflexivity. Qed.

Example splitlines_trailing_CR : splitlines (u "a" ++ [CR]) = [u "a"].
Proof. reflexivity. Qed.

Example splitlines_CRLF_LF : splitlines (u "a" ++ [CR; LF; LF] ++ u "b") = [u "a"; []; u "b"].
Proof. reflexivity. Qed.

Example splitlines_only_LF : splitlines [LF] = [[]] /\ splitlines [] = [].
Proof. split; reflexivity. Qed.

Example splitlines_unit_separator : splitlines (u "a" ++ [0x1F%N] ++ u "b") = [u "a" ++ [0x1F%N] ++ u "b"].
Proof. reflexivity. Qed.

Example int_negative_float : py_int (PyFloat (Finite (-37) (-3))) = Ok (-4).
Proof. reflexivity. Qed.

Example int_inf_nan_none :
  py_int (PyFloat (Inf false)) = Raise OverflowError
  /\ py_int (PyFloat NaN) = Raise ValueError
  /\ py_int PyNone = Raise TypeError.
Proof. repeat split. Qed.

Example float_ties_to_even : py_float (PyInt (2 ^ 53 + 1)) = Ok (Finite (2 ^ 52) 1).
Proof. vm_compute. reflexivity. Qed.

Example float_largest :
  py_float (PyInt (2 ^ 1024 - 2 ^ 970 - 1)) = Ok (Finite (2 ^ 53 - 1) 971)
  /\ py_float (PyInt (2 ^ 1024 - 2 ^ 970)) = Raise OverflowError.
Proof. split; vm_compute; reflexivity. Qed.

Example end_to_end :
  perform_ocr
    [mkRaw [[PyInt 0; PyInt 0]; [PyInt 10; PyInt 0]; [PyInt 10; PyInt 5]; [PyInt 0; PyInt 5]]
           (u " Invoice #123 ") (PyFloat f_0_91);
     mkRaw [[PyInt 0; PyInt 10]; [PyInt 10; PyInt 10]; [PyInt 10; PyInt 15]; [PyInt 0; PyInt 15]]
           [] (PyFloat f_0_40)]
  = Ok [mkOcrResult [[0; 0]; [10; 0]; [10; 5]; [0; 5]] (u "Invoice #123") f_0_91;
        mkOcrResult [[0; 10]; [10; 10]; [10; 15]; [0; 15]] [] f_0_40]
  /\ text_summary
       [mkOcrResult [[0; 0]; [10; 0]; [10; 5]; [0; 5]] (u "Invoice #123") f_0_91;
        mkOcrResult [[0; 10]; [10; 10]; [10; 15]; [0; 15]] [] f_0_40]
     = u "Invoice #123".
Proof. split; vm_compute; reflexivity. Qed.

Example a_malformed_coordinate_raises :
  perform_ocr
    [mkRaw [[PyInt 0; PyInt 0]] (u "a") (PyFloat f_0_91);
     mkRaw [[PyInt 0; PyFloat NaN]; [PyNone; PyInt 1]] (u "b") (PyFloat f_0_91)]
  = Raise ValueError.
Proof. reflexivity. Qed.

(** ** Facts about [strip] *)

Lemma lstrip_length s : (length (lstrip s) <= length s)%nat.
Proof. induction s as [|c s IH]; simpl; [lia|]. destruct (isspace c); simpl; lia. Qed.

Lemma lstrip_fix_iff s :
  lstrip s = s <-> match s with [] => True | c :: _ => isspace c = false end.
Proof.
  destruct s as [|c s]; simpl; [tauto|].
  destruct (isspace c) eqn:E; split; try done.
  intros H. pose proof (lstrip_length s) as L. rewrite H in L. simpl in L. lia.
Qed.

Lemma lstrip_idem s : lstrip (lstrip s) = lstrip s.
Proof.
  induction s as [|c s IH]; simpl; [done|].
  destruct (isspace c) eqn:E; [done|]. simpl. by rewrite E.
Qed.

Lemma lstrip_Forall (P : char -> Prop) s : Forall P s -> Forall P (lstrip s).
Proof.
  induction 1 as [|c s Hc Hs IH]; simpl; [constructor|].
  destruct (isspace c); [done | by constructor].
Qed.

Lemma rstrip_Forall (P : char -> Prop) s : Forall P s -> Forall P (rstrip s).
Proof.
  intros H. unfold rstrip. apply Forall_reverse, lstrip_Forall, Forall_reverse, H.
Qed.

Lemma strip_Forall (P : char -> Prop) s : Forall P s -> Forall P (strip s).
Proof. intros H. by apply rstrip_Forall, lstrip_Forall. Qed.

(** [lstrip] drops a prefix of white space. *)
Lemma lstrip_split s :
  exists w, s = w ++ lstrip s /\ Forall (fun c => isspace c = true) w.
Proof.
  induction s as [|c s (w & E & W)]; simpl; [by exists []|].
  destruct (isspace c) eqn:Hc.
  - exists (c :: w). split; [simpl; congruence | by constructor].
  - by exists [].
Qed.

(** [rstrip] drops a suffix of white space. *)
Lemma rstrip_split s :
  exists w, s = rstrip s ++ w /\ Forall (fun c => isspace c = true) w.
Proof.
  destruct (lstrip_split (reverse s)) as (w & E & W).
  exists (reverse w). split; [|by apply Forall_reverse].
  unfold rstrip. rewrite <- reverse_app, <- E. by rewrite reverse_involutive.
Qed.

Lemma rstrip_keeps_lstripped s : lstrip s = s -> lstrip (rstrip s) = rstrip s.
Proof.
  intros H. apply lstrip_fix_iff. apply lstrip_fix_iff in H.
  destruct (rstrip_split s) as (w & E & _).
  destruct (rstrip s) as [|c r]; [done|].
  rewrite E in H. exact H.
Qed.

Lemma rstrip_idem s : rstrip (rstrip s) = rstrip s.
Proof. unfold rstrip. by rewrite reverse_involutive, lstrip_idem. Qed.

Lemma strip_idem s : strip (strip s) = strip s.
Proof.
  unfold strip. rewrite rstrip_keeps_lstripped.
  - apply rstrip_idem.
  - apply lstrip_idem.
Qed.

(** A stripped, non-empty string starts and ends with a character that is
    not white space. *)
Lemma strip_head s c : head (strip s) = Some c -> isspace c = false.
Proof.
  intros H. pose proof (rstrip_keeps_lstripped (lstrip s) (lstrip_idem s)) as F.
  fold (strip s) in F. apply lstrip_fix_iff in F.
  destruct (strip s); simpl in H; [done|]. congruence.
Qed.

Lemma strip_last s c : last (strip s) = Some c -> isspace c = false.
Proof.
  intros H. unfold strip, rstrip in H. rewrite last_reverse in H.
  pose proof (lstrip_idem (reverse (lstrip s))) as F. apply lstrip_fix_iff in F.
  destruct (lstrip (reverse (lstrip s))); simpl in H; [done|]. congruence.
Qed.

Lemma strip_blank s : Forall (fun c => isspace c = true) s -> strip s = [].
Proof.
  intros H. unfold strip.
  assert (lstrip s = []) as ->.
  { induction H as [|c s Hc _ IH]; simpl; [done|]. by rewrite Hc. }
  done.
Qed.

Lemma linebreak_isspace c : islinebreak c = true -> isspace c = true.
Proof.
  unfold islinebreak, isspace. intros H.
  repeat match goal with
  | H : _ || _ = true |- _ => apply orb_true_iff in H; destruct H as [H|H]
  | H : _ && _ = true |- _ => apply andb_true_iff in H; destruct H as [? ?]
  | H : (_ <=? _)%N = true |- _ => apply N.leb_le in H
  | H : (_ =? _)%N = true |- _ => apply N.eqb_eq in H; subst c
  end; try reflexivity.
  - replace ((9 <=? c)%N) with true by (symmetry; apply N.leb_le; lia).
    replace ((c <=? 13)%N) with true by (symmetry; apply N.leb_le; lia). done.
  - replace ((28 <=? c)%N) with true by (symmetry; apply N.leb_le; lia).
    replace ((c <=? 32)%N) with true by (symmetry; apply N.leb_le; lia).
    simpl. by rewrite orb_true_r.
Qed.

(** ** Facts about [splitlines], [join] and [clean] *)

Lemma splitlines_from_nobreak l cur s :
  nobreak l -> splitlines_from cur (l ++ s) = splitlines_from (cur ++ l) s.
Proof.
  intros H. revert cur. induction H as [|c l Hc _ IH]; intros cur; simpl.
  - by rewrite app_nil_r.
  - rewrite Hc, IH. by rewrite <- app_assoc.
Qed.

Lemma splitlines_from_LF cur s :
  splitlines_from cur (LF :: s) = cur :: splitlines s.
Proof. by destruct s. Qed.

Lemma splitlines_from_Forall (P : char -> Prop) cur s :
  Forall P cur -> Forall (fun c => islinebreak c = false -> P c) s ->
  Forall (Forall P) (splitlines_from cur s).
Proof.
  remember (length s) as n eqn:Hn. revert s cur Hn.
  induction n as [n IH] using lt_wf_ind. intros s cur Hn Hcur Hs.
  destruct s as [|c rest]; simpl.
  - destruct cur; [constructor | by constructor].
  - apply Forall_cons in Hs as [Hc Hrest]. simpl in Hn.
    destruct (islinebreak c) eqn:Ec.
    + assert (forall t, (length t < n)%nat ->
                Forall (fun c => islinebreak c = false -> P c) t ->
                Forall (Forall P) (cur :: splitlines_from [] t)) as K.
      { intros t Ht Pt. constructor; [done|]. eapply IH; [exact Ht|done|constructor|done]. }
      destruct rest as [|c' rest']; [apply K; [lia|constructor]|].
      destruct ((c =? CR)%N && (c' =? LF)%N); apply K; simpl in *; try lia; try done.
      by apply Forall_cons in Hrest as [_ ?].
    + eapply IH; [|reflexivity| |done]; [lia|].
      apply Forall_app. split; [done|]. constructor; [by apply Hc | constructor].
Qed.

Lemma splitlines_lines s : Forall nobreak (splitlines s).
Proof.
  apply splitlines_from_Forall; [constructor|].
  apply Forall_forall. by intros c _ H.
Qed.

Lemma clean_app a b : clean (a ++ b) = clean a ++ clean b.
Proof. unfold clean. by rewrite filter_app, map_app. Qed.

Lemma clean_cons l ls : clean (l :: ls) = clean [l] ++ clean ls.
Proof. apply (clean_app [l] ls). Qed.

Lemma clean_pending cur :
  clean (match cur with [] => [] | _ :: _ => [cur] end) = clean [cur].
Proof. by destruct cur. Qed.

(** A line feed between two texts separates their lines; the empty line
    that may arise at the seam is dropped by [clean]. *)
Lemma clean_splitlines_from_LF a b cur :
  clean (splitlines_from cur (a ++ LF :: b))
  = clean (splitlines_from cur a) ++ clean (splitlines b).
Proof.
  remember (length a) as n eqn:Hn. revert a cur Hn.
  induction n as [n IH] using lt_wf_ind. intros a cur Hn.
  destruct a as [|c a'].
  - rewrite app_nil_l, splitlines_from_LF. simpl splitlines_from.
    rewrite clean_pending. by rewrite <- clean_app.
  - simpl in Hn. destruct (islinebreak c) eqn:Hc.
    + assert (forall t, (length t < n)%nat ->
                clean (cur :: splitlines_from [] (t ++ LF :: b))
                = clean (cur :: splitlines_from [] t) ++ clean (splitlines b)) as K.
      { intros t Ht. rewrite (clean_cons cur (splitlines_from [] t)), <- app_assoc.
        rewrite clean_cons. f_equal. by eapply IH. }
      destruct a' as [|c' a'']; cbn [app splitlines_from]; rewrite Hc.
      * destruct (c =? CR)%N; cbn [andb N.eqb LF Pos.eqb].
        -- apply clean_cons.
        -- apply (K []). simpl. lia.
      * destruct ((c =? CR)%N && (c' =? LF)%N).
        -- apply K. simpl in *. lia.
        -- apply (K (c' :: a'')). simpl in *. lia.
    + cbn [app splitlines_from]. rewrite Hc. eapply IH; [|reflexivity]. lia.
Qed.

Lemma join_cons_cons sep p q rest :
  join sep (p :: q :: rest) = p ++ sep ++ join sep (q :: rest).
Proof. reflexivity. Qed.

(** Splitting the join of several texts and cleaning the lines is the
    same as cleaning the lines of each text in turn. *)
Lemma clean_splitlines_join ts :
  clean (splitlines (join [LF] ts)) = flat_map (fun t => clean (splitlines t)) ts.
Proof.
  induction ts as [|p ts IH]; [reflexivity|].
  destruct ts as [|q rest].
  - simpl. by rewrite app_nil_r.
  - rewrite join_cons_cons.
    etransitivity; [apply (clean_splitlines_from_LF p (join [LF] (q :: rest)) [])|].
    by rewrite IH.
Qed.

Lemma flat_map_filter_truthy ts :
  flat_map (fun t => clean (splitlines t)) (filter (fun t => truthy t = true) ts)
  = flat_map (fun t => clean (splitlines t)) ts.
Proof.
  induction ts as [|t ts IH]; [reflexivity|].
  rewrite filter_cons. destruct t as [|c t]; simpl.
  - exact IH.
  - by rewrite IH.
Qed.

Lemma clean_lines ls : Forall nobreak ls -> Forall clean_line (clean ls).
Proof.
  induction 1 as [|l ls Hl _ IH]; [constructor|].
  unfold clean. rewrite filter_cons. case_decide as T; [|exact IH].
  simpl. constructor; [|exact IH]. repeat split.
  - intros E. by rewrite E in T.
  - apply strip_idem.
  - by apply strip_Forall.
Qed.

Lemma clean_clean_lines ls : Forall clean_line ls -> clean ls = ls.
Proof.
  induction 1 as [|l ls (N & S & _) _ IH]; [reflexivity|].
  rewrite clean_cons, IH. unfold clean. rewrite filter_cons, S.
  destruct l; [done|]. simpl. by rewrite S.
Qed.

Lemma splitlines_join ls : Forall clean_line ls -> splitlines (join [LF] ls) = ls.
Proof.
  induction 1 as [|l ls (N & _ & B) H IH]; [reflexivity|].
  destruct ls as [|q rest].
  - simpl. unfold splitlines. rewrite <- (app_nil_r l) at 1.
    rewrite splitlines_from_nobreak by exact B. simpl. by destruct l.
  - rewrite join_cons_cons. unfold splitlines at 1.
    rewrite splitlines_from_nobreak by exact B. cbn [app].
    rewrite splitlines_from_LF. by rewrite IH.
Qed.

(** [text_summary], result by result. *)
Lemma text_summary_flat results :
  text_summary results
  = join [LF] (flat_map (fun r => clean (splitlines (text r))) results).
Proof.
  unfold text_summary. fold (clean (splitlines (join [LF] (filter (fun t => truthy t = true) (map text results))))).
  rewrite clean_splitlines_join, flat_map_filter_truthy.
  f_equal. induction results as [|r rs IH]; [reflexivity|]. simpl. by rewrite IH.
Qed.

Lemma text_summary_lines results :
  text_summary results = join [LF] (summary_lines results)
  /\ Forall clean_line (summary_lines results)
  /\ splitlines (text_summary results) = summary_lines results.
Proof.
  assert (Forall clean_line (summary_lines results)) as H
    by apply clean_lines, splitlines_lines.
  split; [reflexivity|]. split; [exact H|].
  change (text_summary results) with (join [LF] (summary_lines results)).
  by apply splitlines_join.
Qed.

Lemma strip_nil_blank s : strip s = [] -> Forall (fun c => isspace c = true) s.
Proof.
  intros E. destruct (lstrip_split s) as (w & Es & W).
  destruct (rstrip_split (lstrip s)) as (w' & Es' & W').
  fold (strip s) in Es'. rewrite E in Es'. simpl in Es'.
  rewrite Es, Es'. by apply Forall_app.
Qed.

Lemma clean_blank ls :
  Forall (Forall (fun c => isspace c = true)) ls -> clean ls = [].
Proof.
  induction 1 as [|l ls Hl _ IH]; [reflexivity|].
  rewrite clean_cons, IH, app_nil_r. unfold clean.
  rewrite filter_cons, (strip_blank l Hl). reflexivity.
Qed.

Lemma clean_splitlines_blank s :
  strip s = [] -> clean (splitlines s) = [].
Proof.
  intros E. apply clean_blank, splitlines_from_Forall; [constructor|].
  eapply Forall_impl; [exact (strip_nil_blank s E)|]. by intros c H _.
Qed.

Lemma splitlines_clean_line l : clean_line l -> clean (splitlines l) = [l].
Proof.
  intros H. pose proof (splitlines_join [l] (Forall_cons_2 _ _ _ H (Forall_nil_2 _))) as E.
  simpl in E. rewrite E. apply clean_clean_lines.
  constructor; [exact H | constructor].
Qed.

(** ** Facts about [mapM] on results that may raise *)

Lemma mapM_Ok {A B} (f : A -> pyres B) l k :
  mapM f l = Ok k <-> Forall2 (fun x y => f x = Ok y) l k.
Proof.
  revert k. induction l as [|x l IH]; intros k; simpl.
  - split; [intros [= <-]; constructor | by inversion 1].
  - unfold mbind, pyres_bind. destruct (f x) as [y|e] eqn:Fx.
    + destruct (mapM f l) as [k'|e] eqn:Ml; simpl; unfold mret, pyres_ret.
      * split.
        -- intros [= <-]. constructor; [done | by apply IH].
        -- inversion 1 as [|? y' ? k'' Hy Hk]; subst.
           apply IH in Hk. congruence.
      * split; [done|]. inversion 1 as [|? y' ? k'' Hy Hk]; subst.
        apply IH in Hk. done.
    + split; [done|]. inversion 1; congruence.
Qed.

Lemma mapM_is_Ok {A B} (f : A -> pyres B) l :
  is_Ok (mapM f l) = forallb (fun x => is_Ok (f x)) l.
Proof.
  induction l as [|x l IH]; [reflexivity|]. simpl.
  unfold mbind, pyres_bind. destruct (f x); [|reflexivity].
  simpl. rewrite <- IH. by destruct (mapM f l).
Qed.

Lemma mapM_Raise {A B} (f : A -> pyres B) l e :
  mapM f l = Raise e -> Exists (fun x => f x = Raise e) l.
Proof.
  induction l as [|x l IH]; simpl; [done|].
  unfold mbind, pyres_bind. destruct (f x) as [y|e'] eqn:Fx.
  - destruct (mapM f l) as [k|e'']; simpl; [done|].
    intros [= ->]. apply Exists_cons_tl. by apply IH.
  - intros [= ->]. by apply Exists_cons_hd.
Qed.

Lemma to_result_Ok raw o :
  to_result raw = Ok o ->
  mapM int_point (raw_bbox raw) = Ok (bbox o)
  /\ text o = strip (raw_text raw)
  /\ py_float (raw_confidence raw) = Ok (confidence o).
Proof.
  unfold to_result, mbind, pyres_bind, mret, pyres_ret.
  destruct (mapM int_point (raw_bbox raw)); [|done].
  destruct (py_float (raw_confidence raw)); [|done].
  by intros [= <-].
Qed.

(** ** The transcript *)

(** C10: [text_summary] joins the non-empty texts with line feeds and
    splits the joined string again at its line boundaries; so each
    result contributes the stripped, non-blank segments of its own text,
    several of them when the text has line breaks inside. *)
Theorem text_summary_resplits (results : list OcrResult) :
  text_summary results
  = join [LF] (clean (splitlines
      (join [LF] (filter (fun t => truthy t = true) (map text results)))))
  /\ text_summary results
     = join [LF] (flat_map (fun r => clean (splitlines (text r))) results)
  /\ text_summary [mkOcrResult [] (u " a " ++ [LF; LF] ++ u " b" ++ [CR; LF] ++ u "c") f_1_0]
     = u "a" ++ [LF] ++ u "b" ++ [LF] ++ u "c".
Proof.
  split; [reflexivity|]. split; [apply text_summary_flat|].
  vm_compute. reflexivity.
Qed.

(** C7: the transcript is the join of the stripped lines that are not
    empty after stripping: its lines are non-empty and carry no white
    space at either end; ["  Hello  "; ""; "World"] gives "Hello\nWorld",
    and results without usable text give the empty string. *)
Theorem text_summary_no_blank_lines (results : list OcrResult) :
  (exists ls,
      ls = clean (splitlines
             (join [LF] (filter (fun t => truthy t = true) (map text results))))
      /\ text_summary results = join [LF] ls
      /\ splitlines (text_summary results) = ls
      /\ Forall (fun l => l <> [] /\ strip l = l
                          /\ (forall c, head l = Some c -> isspace c = false)
                          /\ (forall c, last l = Some c -> isspace c = false)) ls)
  /\ text_summary [mkOcrResult [] (u "  Hello  ") f_1_0;
                   mkOcrResult [] (u "") f_1_0;
                   mkOcrResult [] (u "World") f_1_0]
     = u "Hello" ++ [LF] ++ u "World"
  /\ (Forall (fun r => strip (text r) = []) results -> text_summary results = []).
Proof.
  split; [|split].
  - destruct (text_summary_lines results) as (E & H & S).
    exists (summary_lines results).
    split; [reflexivity|]. split; [exact E|]. split; [exact S|].
    eapply Forall_impl; [exact H|]. intros l (N & St & _).
    repeat split; [done..| |]; intros c Hc; rewrite <- St in Hc.
    + by apply strip_head in Hc.
    + by apply strip_last in Hc.
  - vm_compute. reflexivity.
  - intros H. rewrite text_summary_flat.
    replace (flat_map _ results) with (@nil str); [reflexivity|].
    induction H as [|r rs Hr _ IH]; [reflexivity|].
    simpl. by rewrite (clean_splitlines_blank _ Hr), <- IH.
Qed.

Lemma text_summary_no_blank_lines_witness :
  text_summary [mkOcrResult [] (u "   ") f_0_40; mkOcrResult [] [] f_0_91] = [].
Proof.
  apply (text_summary_no_blank_lines
           [mkOcrResult [] (u "   ") f_0_40; mkOcrResult [] [] f_0_91]).
  repeat constructor.
Defined.

(** ** Normalisation of the raw detections *)

Lemma perform_ocr_Ok raw res :
  perform_ocr raw = Ok res ->
  Forall2 (fun r o =>
             Forall2 (Forall2 (fun v z => py_int v = Ok z)) (raw_bbox r) (bbox o)
             /\ text o = strip (raw_text r)
             /\ py_float (raw_confidence r) = Ok (confidence o)) raw res.
Proof.
  intros H. apply mapM_Ok in H. eapply Forall2_impl; [exact H|].
  intros r o Ho. apply to_result_Ok in Ho as (Hb & Ht & Hc).
  split; [|done]. apply mapM_Ok in Hb. eapply Forall2_impl; [exact Hb|].
  intros p q Hp. by apply mapM_Ok in Hp.
Qed.

Lemma float_to_int_integer_part m e z :
  float_to_int (Finite m e) = Ok z -> integer_part m e z.
Proof.
  unfold float_to_int, integer_part. destruct (0 <=? e) eqn:E.
  - by intros [= <-].
  - intros [= <-]. apply Z.leb_gt in E.
    assert (0 < 2 ^ (- e)) as D by (apply Z.pow_pos_nonneg; lia).
    pose proof (Z.quot_rem m (2 ^ (- e)) ltac:(lia)) as Q.
    split; intros Hm.
    + pose proof (Z.rem_bound_pos m (2 ^ (- e)) Hm D). lia.
    + pose proof (Z.rem_bound_pos (- m) (2 ^ (- e)) ltac:(lia) D) as R.
      rewrite Z.rem_opp_l in R by lia. lia.
Qed.

Lemma py_int_truncates v z : py_int v = Ok z -> truncates_to v z.
Proof.
  intros H. split; [exact H|]. destruct v as [z'|[m e|b|]|]; simpl in H; try done.
  - congruence.
  - by apply float_to_int_integer_part.
Qed.

Lemma py_int_sign v z : py_int v = Ok z -> (0 <= z <-> above_minus_one v).
Proof.
  intros H. destruct v as [z'|[m e|b|]|]; simpl in H; try done.
  - by injection H as ->.
  - pose proof (float_to_int_integer_part m e z H) as I.
    unfold integer_part in I. simpl. destruct (0 <=? e) eqn:E.
    + apply Z.leb_le in E. subst z.
      assert (0 < 2 ^ e) by (by apply Z.pow_pos_nonneg). nia.
    + apply Z.leb_gt in E.
      assert (0 < 2 ^ (- e)) as D by (apply Z.pow_pos_nonneg; lia).
      destruct I as [Ip In]. destruct (Z_le_gt_dec 0 m) as [P|P].
      * specialize (Ip P). nia.
      * specialize (In ltac:(lia)). nia.
Qed.

Lemma py_int_raises v e :
  py_int v = Raise e -> e = TypeError \/ e = ValueError \/ e = OverflowError.
Proof.
  destruct v as [z|[m x|b|]|]; simpl; try done.
  - by destruct (0 <=? x).
  - intros [= <-]. tauto.
  - intros [= <-]. tauto.
  - intros [= <-]. tauto.
Qed.

Lemma py_float_raises v e :
  py_float v = Raise e -> e = TypeError \/ e = ValueError \/ e = OverflowError.
Proof.
  destruct v as [z|f|]; simpl; try done.
  - unfold int_to_float. destruct (_ <=? 53); [done|].
    match goal with |- context [if ?c then Raise _ else _] => destruct c end; [|done].
    intros [= <-]. tauto.
  - intros [= <-]. tauto.
Qed.

Lemma bbox_is_Ok b :
  is_Ok (mapM int_point b) = forallb (forallb (fun v => is_Ok (py_int v))) b.
Proof.
  rewrite mapM_is_Ok. induction b as [|p b IH]; [reflexivity|].
  simpl. unfold int_point at 1. rewrite mapM_is_Ok. by f_equal.
Qed.

Lemma to_result_is_Ok r : is_Ok (to_result r) = coercible r.
Proof.
  unfold to_result, coercible, mbind, pyres_bind.
  rewrite <- bbox_is_Ok.
  destruct (mapM int_point (raw_bbox r)) eqn:E; [|reflexivity].
  simpl. by destruct (py_float (raw_confidence r)).
Qed.

Lemma to_result_raises r e :
  to_result r = Raise e -> e = TypeError \/ e = ValueError \/ e = OverflowError.
Proof.
  unfold to_result, mbind, pyres_bind.
  destruct (mapM int_point (raw_bbox r)) as [b|e'] eqn:E.
  - destruct (py_float (raw_confidence r)) as [c|e''] eqn:F; [done|].
    intros [= <-]. by eapply py_float_raises.
  - intros [= <-]. apply mapM_Raise, Exists_exists in E as (p & _ & Hp).
    apply mapM_Raise, Exists_exists in Hp as (v & _ & Hv).
    by eapply py_int_raises.
Qed.

(** C1 (as the code has it): every coordinate of an accepted detection
    is [int] of the raw coordinate, which for a float is its integer part
    towards zero, not the nearest integer. *)
Theorem coordinates_truncate (raw : list RawDetection) (res : list OcrResult) :
  perform_ocr raw = Ok res ->
  Forall2 (fun r o => Forall2 (Forall2 truncates_to) (raw_bbox r) (bbox o)) raw res.
Proof.
  intros H. apply perform_ocr_Ok in H. eapply Forall2_impl; [exact H|].
  intros r o (Hb & _). eapply Forall2_impl; [exact Hb|].
  intros p q Hp. eapply Forall2_impl; [exact Hp|]. apply py_int_truncates.
Qed.

Lemma coordinates_truncate_witness :
  Forall2 (fun r o => Forall2 (Forall2 truncates_to) (raw_bbox r) (bbox o))
    [mkRaw [[PyFloat f_3_7; PyFloat f_5_2]] (u "x") (PyFloat f_0_91)]
    [mkOcrResult [[3; 5]] (u "x") f_0_91].
Proof.
  apply (coordinates_truncate
           [mkRaw [[PyFloat f_3_7; PyFloat f_5_2]] (u "x") (PyFloat f_0_91)]
           [mkOcrResult [[3; 5]] (u "x") f_0_91]).
  vm_compute. reflexivity.
Defined.

(** C1, counterexample: the point (3.7, 5.2) normalises to (3, 5), where
    rounding to the nearest integer gives (4, 5). *)
Lemma coordinates_not_rounded :
  perform_ocr [mkRaw [[PyFloat f_3_7; PyFloat f_5_2]] (u "x") (PyFloat f_0_91)]
  = Ok [mkOcrResult [[3; 5]] (u "x") f_0_91]
  /\ mapM spec_round_nearest [f_3_7; f_5_2] = Ok [4; 5]
  /\ perform_ocr [mkRaw [[PyFloat f_3_7; PyFloat f_5_2]] (u "x") (PyFloat f_0_91)]
     <> Ok [mkOcrResult [[4; 5]] (u "x") f_0_91].
Proof.
  split; [vm_compute; reflexivity|]. split; [vm_compute; reflexivity|].
  vm_compute. discriminate.
Qed.

(** C2 (as the code has it): normalisation checks no polygon size and
    skips nothing.  The call returns exactly when every coordinate and
    confidence converts, with one result per raw detection and every
    polygon at its raw length; otherwise it raises the conversion's own
    exception. *)
Theorem perform_ocr_accepts_iff_coercible (raw : list RawDetection) :
  match perform_ocr raw with
  | Ok res =>
      forallb coercible raw = true
      /\ length res = length raw
      /\ Forall2 (fun r o => length (bbox o) = length (raw_bbox r)) raw res
  | Raise e =>
      forallb coercible raw = false
      /\ (e = TypeError \/ e = ValueError \/ e = OverflowError)
  end.
Proof.
  assert (forallb (fun x => is_Ok (to_result x)) raw = forallb coercible raw) as B.
  { induction raw as [|r raw IH]; [reflexivity|]. simpl.
    rewrite to_result_is_Ok. f_equal. apply IH. }
  pose proof (mapM_is_Ok to_result raw) as A. fold (perform_ocr raw) in A.
  rewrite B in A. destruct (perform_ocr raw) as [res|e] eqn:E; simpl in A.
  - split; [done|]. pose proof (perform_ocr_Ok raw res E) as F.
    split; [symmetry; by eapply Forall2_length|].
    eapply Forall2_impl; [exact F|]. intros r o (Hb & _).
    symmetry. by eapply Forall2_length.
  - split; [done|]. apply mapM_Raise, Exists_exists in E as (r & _ & Hr).
    by eapply to_result_raises.
Qed.

(** C2, counterexample: a detection whose polygon has two points is
    neither rejected nor skipped. *)
Lemma two_point_polygon_accepted :
  (length (raw_bbox (mkRaw [[PyInt 0; PyInt 0]; [PyInt 9; PyInt 4]] (u "ab") (PyFloat f_0_91))) < 3)%nat
  /\ perform_ocr [mkRaw [[PyInt 0; PyInt 0]; [PyInt 9; PyInt 4]] (u "ab") (PyFloat f_0_91)]
     = Ok [mkOcrResult [[0; 0]; [9; 4]] (u "ab") f_0_91].
Proof. split; [simpl; lia | vm_compute; reflexivity]. Qed.

(** C4 (as the code has it): a coordinate of an accepted detection is
    non-negative exactly when the raw coordinate is above [-1]. *)
Theorem coordinates_sign (raw : list RawDetection) (res : list OcrResult) :
  perform_ocr raw = Ok res ->
  Forall2 (fun r o =>
             Forall2 (Forall2 (fun v z => 0 <= z <-> above_minus_one v))
                     (raw_bbox r) (bbox o)) raw res.
Proof.
  intros H. apply perform_ocr_Ok in H. eapply Forall2_impl; [exact H|].
  intros r o (Hb & _). eapply Forall2_impl; [exact Hb|].
  intros p q Hp. eapply Forall2_impl; [exact Hp|]. apply py_int_sign.
Qed.

Lemma coordinates_sign_witness :
  Forall2 (fun r o =>
             Forall2 (Forall2 (fun v z => 0 <= z <-> above_minus_one v))
                     (raw_bbox r) (bbox o))
    [mkRaw [[PyInt 2; PyFloat (Finite (-1) (-1))]; [PyFloat (Finite (-7) (-1)); PyInt (-4)]]
           (u "x") (PyFloat f_0_91)]
    [mkOcrResult [[2; 0]; [-3; -4]] (u "x") f_0_91].
Proof.
  apply (coordinates_sign
    [mkRaw [[PyInt 2; PyFloat (Finite (-1) (-1))]; [PyFloat (Finite (-7) (-1)); PyInt (-4)]]
           (u "x") (PyFloat f_0_91)]
    [mkOcrResult [[2; 0]; [-3; -4]] (u "x") f_0_91]).
  vm_compute. reflexivity.
Defined.

(** C4, counterexample: the raw point (-7, -3.5) is accepted and kept as
    (-7, -3). *)
Lemma negative_coordinates_kept :
  perform_ocr [mkRaw [[PyInt (-7); PyFloat (Finite (-7) (-1))]] (u "x") (PyFloat f_0_91)]
  = Ok [mkOcrResult [[-7; -3]] (u "x") f_0_91]
  /\ ~ Forall (fun o => Forall (Forall (fun z => 0 <= z)) (bbox o))
         [mkOcrResult [[-7; -3]] (u "x") f_0_91].
Proof.
  split; [vm_compute; reflexivity|].
  intros H. apply Forall_cons in H as [H _]. simpl in H.
  apply Forall_cons in H as [H _]. apply Forall_cons in H as [H _]. lia.
Qed.

(** C6: the texts of the results are the stripped raw texts, one per raw
    detection and in the same order. *)
Theorem perform_ocr_keeps_order (raw : list RawDetection) (res : list OcrResult) :
  perform_ocr raw = Ok res ->
  map text res = map (fun r => strip (raw_text r)) raw
  /\ length res = length raw.
Proof.
  intros H. apply perform_ocr_Ok in H. split; [|symmetry; by eapply Forall2_length].
  induction H as [|r o raw res (_ & Ht & _) _ IH]; [reflexivity|].
  simpl. by rewrite Ht, IH.
Qed.

Lemma perform_ocr_keeps_order_witness :
  map text
    [mkOcrResult [[0; 0]; [10; 0]; [10; 5]; [0; 5]] (u "Invoice #123") f_0_91;
     mkOcrResult [[0; 10]; [10; 10]; [10; 15]; [0; 15]] [] f_0_40;
     mkOcrResult [[0; 20]; [10; 20]; [10; 25]; [0; 25]] (u "Invoice #123") f_0_40]
  = map (fun r => strip (raw_text r))
      [mkRaw [[PyInt 0; PyInt 0]; [PyInt 10; PyInt 0]; [PyInt 10; PyInt 5]; [PyInt 0; PyInt 5]]
             (u " Invoice #123 ") (PyFloat f_0_91);
       mkRaw [[PyInt 0; PyInt 10]; [PyInt 10; PyInt 10]; [PyInt 10; PyInt 15]; [PyInt 0; PyInt 15]]
             (u "") (PyFloat f_0_40);
       mkRaw [[PyInt 0; PyInt 20]; [PyInt 10; PyInt 20]; [PyInt 10; PyInt 25]; [PyInt 0; PyInt 25]]
             (u "Invoice #123") (PyFloat f_0_40)]
  /\ length
       [mkOcrResult [[0; 0]; [10; 0]; [10; 5]; [0; 5]] (u "Invoice #123") f_0_91;
        mkOcrResult [[0; 10]; [10; 10]; [10; 15]; [0; 15]] [] f_0_40;
        mkOcrResult [[0; 20]; [10; 20]; [10; 25]; [0; 25]] (u "Invoice #123") f_0_40]
     = 3%nat.
Proof.
  apply (perform_ocr_keeps_order
    [mkRaw [[PyInt 0; PyInt 0]; [PyInt 10; PyInt 0]; [PyInt 10; PyInt 5]; [PyInt 0; PyInt 5]]
           (u " Invoice #123 ") (PyFloat f_0_91);
     mkRaw [[PyInt 0; PyInt 10]; [PyInt 10; PyInt 10]; [PyInt 10; PyInt 15]; [PyInt 0; PyInt 15]]
           (u "") (PyFloat f_0_40);
     mkRaw [[PyInt 0; PyInt 20]; [PyInt 10; PyInt 20]; [PyInt 10; PyInt 25]; [PyInt 0; PyInt 25]]
           (u "Invoice #123") (PyFloat f_0_40)]).
  vm_compute. reflexivity.
Defined.

Lemma perform_ocr_fake_results s :
  perform_ocr (split_lines_as_fake_results s)
  = Ok (map (fun l => mkOcrResult [[0; 0]; [1; 0]; [1; 1]; [0; 1]] (strip l) f_1_0)
            (splitlines s)).
Proof.
  unfold split_lines_as_fake_results. apply mapM_Ok.
  induction (splitlines s) as [|l ls IH]; constructor; [reflexivity | exact IH].
Qed.

Lemma text_summary_of_clean_lines (box : list (list Z)) (c : pyfloat) ls :
  Forall clean_line ls ->
  text_summary (map (fun l => mkOcrResult box (strip l) c) ls) = join [LF] ls.
Proof.
  intros H. rewrite text_summary_flat. f_equal.
  induction H as [|l ls Hl _ IH]; [reflexivity|].
  simpl. destruct Hl as (N & S & B). rewrite S.
  rewrite splitlines_clean_line by done. simpl. by rewrite IH.
Qed.

(** C5: reconstruction is idempotent.  The lines of a transcript, taken
    as the texts of new raw detections, normalise and reconstruct to the
    same transcript. *)
Theorem reconstruct_idempotent (raw : list RawDetection) (res : list OcrResult) :
  perform_ocr raw = Ok res ->
  exists res',
    perform_ocr (split_lines_as_fake_results (text_summary res)) = Ok res'
    /\ map text res' = splitlines (text_summary res)
    /\ text_summary res' = text_summary res.
Proof.
  intros _. destruct (text_summary_lines res) as (E & H & S).
  eexists. split; [apply perform_ocr_fake_results|]. rewrite S. split.
  - rewrite map_map. simpl. clear E S.
    induction H as [|l ls (_ & St & _) _ IH]; [reflexivity|].
    simpl. by rewrite St, IH.
  - rewrite text_summary_of_clean_lines by exact H. by rewrite E.
Qed.

Lemma reconstruct_idempotent_witness :
  exists res',
    perform_ocr (split_lines_as_fake_results
      (text_summary
         [mkOcrResult [[0; 0]; [10; 0]; [10; 5]; [0; 5]] (u "Invoice  #123" ++ [CR; LF] ++ u " total") f_0_91;
          mkOcrResult [[0; 10]; [10; 10]; [10; 15]; [0; 15]] [] f_0_40]))
    = Ok res'
    /\ map text res'
       = splitlines (text_summary
           [mkOcrResult [[0; 0]; [10; 0]; [10; 5]; [0; 5]] (u "Invoice  #123" ++ [CR; LF] ++ u " total") f_0_91;
            mkOcrResult [[0; 10]; [10; 10]; [10; 15]; [0; 15]] [] f_0_40])
    /\ text_summary res'
       = text_summary
           [mkOcrResult [[0; 0]; [10; 0]; [10; 5]; [0; 5]] (u "Invoice  #123" ++ [CR; LF] ++ u " total") f_0_91;
            mkOcrResult [[0; 10]; [10; 10]; [10; 15]; [0; 15]] [] f_0_40].
Proof.
  apply (reconstruct_idempotent
    [mkRaw [[PyInt 0; PyInt 0]; [PyInt 10; PyInt 0]; [PyInt 10; PyInt 5]; [PyInt 0; PyInt 5]]
           (u "  Invoice  #123" ++ [CR; LF] ++ u " total ") (PyFloat f_0_91);
     mkRaw [[PyInt 0; PyInt 10]; [PyInt 10; PyInt 10]; [PyInt 10; PyInt 15]; [PyInt 0; PyInt 15]]
           (u "  ") (PyFloat f_0_40)]).
  vm_compute. reflexivity.
Defined.

(** ** The sidebar *)

(** C3 (as the code has it): with every language deselected the engine
    gets [vi] alone; it gets [vi] and [en] while the selection is left at
    its initial value. *)
Theorem empty_selection_falls_back_to_vi (g i : option bool) (c : option pyfloat) :
  engine_languages (mkEdits (Some []) g i c) = ["vi"%string]
  /\ engine_languages (mkEdits None g i c) = ["vi"%string; "en"%string].
Proof. split; reflexivity. Qed.

(** C3, counterexample: an empty selection does not default to both
    languages. *)
Lemma empty_selection_not_both :
  engine_languages (mkEdits (Some []) None None None) <> ["vi"%string; "en"%string].
Proof. vm_compute. discriminate. Qed.

(** ** Images *)

Section images.
Context `{PIL}.

Lemma only_touches_ret {A} im (a : A) : only_touches im (ret a).
Proof. by intros s l _. Qed.

Lemma only_touches_lift {A} im (r : pyres A) : only_touches im (lift r).
Proof. by intros s l _. Qed.

Lemma only_touches_bind {A B} im (m : M A) (k : A -> M B) :
  only_touches im m -> (forall a, only_touches im (k a)) ->
  only_touches im (x <- m ;; k x).
Proof.
  intros Hm Hk s l Hl. unfold bind. specialize (Hm s l Hl).
  destruct (m s) as [s' [a|e]]; simpl in *; [|done].
  by rewrite (Hk a s' l Hl).
Qed.

Lemma only_touches_draw_on f im : only_touches im (draw_on f im).
Proof.
  intros s l Hl. unfold draw_on. destruct (s !! im) as [px|]; [|done].
  destruct (f px); [|done]. simpl. by rewrite lookup_insert_ne.
Qed.

Lemma only_touches_for_each {A} im (xs : list A) (body : A -> M unit) :
  (forall x, only_touches im (body x)) -> only_touches im (for_each xs body).
Proof.
  intros Hb. induction xs as [|x xs IH]; simpl.
  - apply only_touches_ret.
  - apply only_touches_bind; [apply Hb | intros _; exact IH].
Qed.

Lemma fresh_unused (s : store) : s !! fresh (dom s) = None.
Proof. apply not_elem_of_dom, is_fresh. Qed.

Lemma allocates_new_from f im : allocates (new_from f im).
Proof.
  intros s. unfold new_from. destruct (s !! im) as [px|]; [|by split].
  destruct (f px) as [px'|e]; [|by split]. simpl. split.
  - intros l p Hl. rewrite lookup_insert_ne; [done|].
    intros <-. by rewrite fresh_unused in Hl.
  - intros r [= <-]. apply fresh_unused.
Qed.

Lemma new_from_Ok f im (s : store) px px' :
  s !! im = Some px -> f px = Ok px' ->
  new_from f im s = (<[fresh (dom s) := px']> s, Ok (fresh (dom s))).
Proof. intros Hi Hf. unfold new_from. by rewrite Hi, Hf. Qed.
End images.

(** C8: with no grey-scale conversion, no inversion and contrast 1.0 the
    input image itself is returned and the store of pixel data is left as
    it was; in general contrast enhancement is the last step and runs
    exactly when [contrast != 1.0]. *)
Theorem preprocess_identity `{PIL} (image : Image) (s : store) :
  preprocess_image image false false f_1_0 s = (s, Ok image)
  /\ forall grayscale invert contrast,
       preprocess_image image grayscale invert contrast s
       = (processed <- preprocess_image image grayscale invert f_1_0 ;;
          if float_neb contrast f_1_0
          then Contrast_enhance processed contrast
          else ret processed) s.
Proof.
  split; [reflexivity|]. intros g i c.
  unfold preprocess_image, bind, ret.
  change (float_neb f_1_0 f_1_0) with false. cbv iota.
  destruct ((if g then ImageOps_grayscale image else fun s0 => (s0, Ok image)) s)
    as [s1 [p1|e1]]; [|reflexivity].
  destruct ((if i then ImageOps_invert p1 else fun s0 => (s0, Ok p1)) s1)
    as [s2 [p2|e2]]; [|reflexivity].
  destruct (float_neb c f_1_0); [|reflexivity].
  by destruct (Contrast_enhance p2 c s2) as [s3 [p3|e3]].
Qed.

(** C9: drawing the boxes leaves the pixel data of every image of the
    store, the base image included, as it was; for no results the
    returned image is a new one holding the base image converted to RGB. *)
Theorem draw_boxes_keeps_base `{PIL} (s : store) (image : Image) (px : pixels)
    (results : list OcrResult) :
  s !! image = Some px ->
  (draw_boxes image results s).1 !! image = Some px
  /\ (forall l p, s !! l = Some p -> (draw_boxes image results s).1 !! l = Some p)
  /\ exists preview,
       (draw_boxes image [] s).2 = Ok preview
       /\ s !! preview = None
       /\ (draw_boxes image [] s).1 !! preview = Some (px_convert "RGB" px)
       /\ (draw_boxes image [] s).1 !! image = Some px.
Proof.
  intros Hi.
  assert (forall rs l p, s !! l = Some p -> (draw_boxes image rs s).1 !! l = Some p) as F.
  { intros rs l p Hl. unfold draw_boxes, bind at 1.
    destruct (allocates_new_from (fun q => Ok (px_convert "RGB" q)) image s) as [K1 N1].
    fold (Image_convert "RGB" image) in K1, N1.
    destruct (Image_convert "RGB" image s) as [s1 [conv|e]]; simpl in *; [|by apply K1].
    unfold bind at 1.
    destruct (allocates_new_from Ok conv s1) as [K2 N2].
    fold (Image_copy conv) in K2, N2.
    destruct (Image_copy conv s1) as [s2 [prev|e]]; simpl in *; [|by apply K2, K1].
    assert (l <> prev) as Hne.
    { intros ->. specialize (N2 prev eq_refl). apply K1 in Hl. congruence. }
    match goal with |- context [bind ?m ?k s2] =>
      assert (only_touches prev (bind m k)) as T end.
    { apply only_touches_bind; [|intros; apply only_touches_ret].
      apply only_touches_for_each. intros r.
      apply only_touches_bind; [apply only_touches_draw_on|]. intros _.
      destruct (truthy (text r)); [|apply only_touches_ret].
      apply only_touches_bind; [apply only_touches_lift|].
      intros xy. apply only_touches_draw_on. }
    rewrite (T s2 l Hne). by apply K2, K1. }
  split; [by apply F|]. split; [apply F|].
  exists (fresh (dom (<[fresh (dom s) := px_convert "RGB" px]> s))).
  unfold draw_boxes, bind, Image_convert, Image_copy.
  rewrite (new_from_Ok _ image s px (px_convert "RGB" px) Hi eq_refl).
  rewrite (new_from_Ok Ok (fresh (dom s)) _ (px_convert "RGB" px) (px_convert "RGB" px)
             (lookup_insert_eq _ _ _) eq_refl).
  simpl. split; [reflexivity|].
  pose proof (fresh_unused (<[fresh (dom s) := px_convert "RGB" px]> s)) as N.
  split.
  - destruct (s !! fresh (dom (<[fresh (dom s) := px_convert "RGB" px]> s))) eqn:E; [|done].
    rewrite lookup_insert_ne in N; [congruence|].
    intros Q. rewrite <- Q in E. by rewrite fresh_unused in E.
  - split; [apply lookup_insert_eq|].
    assert (fresh (dom s) <> image) as C
      by (intros Q; rewrite <- Q in Hi; by rewrite fresh_unused in Hi).
    rewrite !lookup_insert_ne; [done | exact C |].
    intros Q. rewrite Q in N. rewrite lookup_insert_ne in N by exact C. congruence.
Qed.

Lemma draw_boxes_keeps_base_witness :
  (draw_boxes (H := row_PIL) 1%positive
     [mkOcrResult [[0; 0]; [2; 0]; [2; 1]] (u "ab") f_0_91]
     {[1%positive := [10; 20; 30]]}).1 !! 1%positive
  = Some [10; 20; 30].
Proof.
  refine (proj1 (draw_boxes_keeps_base (H := row_PIL)
           {[1%positive := [10; 20; 30]]} 1%positive [10; 20; 30]
           [mkOcrResult [[0; 0]; [2; 0]; [2; 1]] (u "ab") f_0_91] _)).
  vm_compute. reflexivity.
Defined.

Example draw_boxes_row :
  (draw_boxes (H := row_PIL) 1%positive
     [mkOcrResult [[0; 0]; [2; 0]; [2; 1]] (u "ab") f_0_91]
     {[1%positive := [10; 20; 30]]})
  = ({[1%positive := [10; 20; 30]; 2%positive := [10; 20; 30];
       3%positive := [255; 20; 255]]}, Ok 3%positive).
Proof. vm_compute. reflexivity. Qed.

(** ** More about the transcript *)

Lemma strip_fix s :
  (forall c, head s = Some c -> isspace c = false) ->
  (forall c, last s = Some c -> isspace c = false) ->
  strip s = s.
Proof.
  intros Hh Hl. unfold strip.
  assert (lstrip s = s) as ->.
  { apply lstrip_fix_iff. destruct s as [|c s]; [done|]. by apply Hh. }
  unfold rstrip.
  assert (lstrip (reverse s) = reverse s) as ->.
  { apply lstrip_fix_iff. destruct (reverse s) as [|c t] eqn:E; [done|].
    apply Hl. by rewrite <- head_reverse, E. }
  apply reverse_involutive.
Qed.

Lemma lstrip_app_blank w s :
  Forall (fun c => isspace c = true) w -> lstrip (w ++ s) = lstrip s.
Proof. induction 1 as [|c w Hc _ IH]; simpl; [done|]. by rewrite Hc. Qed.

Lemma lstrip_app_keep s w : lstrip s <> [] -> lstrip (s ++ w) = lstrip s ++ w.
Proof.
  induction s as [|c s IH]; simpl; [done|].
  destruct (isspace c); [exact IH | done].
Qed.

Lemma strip_app_blank_l w s :
  Forall (fun c => isspace c = true) w -> strip (w ++ s) = strip s.
Proof. intros H. unfold strip. by rewrite lstrip_app_blank. Qed.

Lemma rstrip_app_blank s w :
  Forall (fun c => isspace c = true) w -> rstrip (s ++ w) = rstrip s.
Proof.
  intros H. unfold rstrip. rewrite reverse_app, lstrip_app_blank; [done|].
  by apply Forall_reverse.
Qed.

Lemma lstrip_nil_blank s : lstrip s = [] -> Forall (fun c => isspace c = true) s.
Proof.
  intros E. destruct (lstrip_split s) as (w & Es & W).
  rewrite E, app_nil_r in Es. by subst.
Qed.

Lemma strip_app_blank_r s w :
  Forall (fun c => isspace c = true) w -> strip (s ++ w) = strip s.
Proof.
  intros H. destruct (lstrip s) as [|c t] eqn:E.
  - rewrite !strip_blank; [done| |]; [by apply lstrip_nil_blank|].
    apply Forall_app. split; [by apply lstrip_nil_blank | done].
  - unfold strip. rewrite lstrip_app_keep by (by rewrite E).
    by apply rstrip_app_blank.
Qed.

Lemma join_nil_inv ls : Forall clean_line ls -> join [LF] ls = [] -> ls = [].
Proof.
  intros H E. destruct H as [|l ls (N & _) _]; [done|].
  destruct ls; simpl in E; [done|]. by destruct l.
Qed.

Lemma join_app_LF (xs ys : list str) :
  xs <> [] -> ys <> [] -> join [LF] (xs ++ ys) = join [LF] xs ++ [LF] ++ join [LF] ys.
Proof.
  intros Hx Hy. induction xs as [|x xs IH]; [done|].
  destruct xs as [|x' xs].
  - simpl. by destruct ys.
  - change ((x :: x' :: xs) ++ ys) with (x :: (x' :: xs) ++ ys).
    change ((x' :: xs) ++ ys) with (x' :: xs ++ ys) at 1.
    rewrite !join_cons_cons.
    change (x' :: xs ++ ys) with ((x' :: xs) ++ ys).
    rewrite IH by done. by rewrite <- !app_assoc.
Qed.

Lemma join_Forall (P : char -> Prop) ls :
  P LF -> Forall (Forall P) ls -> Forall P (join [LF] ls).
Proof.
  intros HP. induction 1 as [|l ls Hl Hls IH]; [constructor|].
  destruct ls as [|q rest]; [exact Hl|].
  rewrite join_cons_cons. apply Forall_app. split; [exact Hl|].
  apply Forall_cons. split; [exact HP | exact IH].
Qed.

Lemma clean_Forall (P : char -> Prop) ls :
  Forall (Forall P) ls -> Forall (Forall P) (clean ls).
Proof.
  induction 1 as [|l ls Hl _ IH]; [constructor|].
  rewrite clean_cons. apply Forall_app. split; [|exact IH].
  unfold clean. rewrite filter_cons. case_decide; [|constructor].
  simpl. constructor; [by apply strip_Forall | constructor].
Qed.

Lemma result_lines_clean results :
  Forall clean_line (flat_map (fun r => clean (splitlines (text r))) results).
Proof.
  induction results as [|r rs IH]; [constructor|].
  simpl. apply Forall_app. split; [|exact IH].
  apply clean_lines, splitlines_lines.
Qed.

Lemma truthy_nil_iff (s : str) : truthy s = false <-> s = [].
Proof. by destruct s. Qed.

(** X1: the transcript of two result lists put end to end is the two
    transcripts with one line feed between them, or the other one when
    one of them is empty. *)
Theorem text_summary_app (a b : list OcrResult) :
  text_summary (a ++ b)
  = if truthy (text_summary a) && truthy (text_summary b)
    then text_summary a ++ [LF] ++ text_summary b
    else text_summary a ++ text_summary b.
Proof.
  rewrite !text_summary_flat, flat_map_app.
  pose proof (result_lines_clean a) as Ha. pose proof (result_lines_clean b) as Hb.
  destruct (flat_map _ a) as [|x xs] eqn:Ea.
  - reflexivity.
  - destruct (flat_map _ b) as [|y ys] eqn:Eb.
    + rewrite app_nil_r. simpl (join [LF] []). rewrite andb_false_r. by rewrite app_nil_r.
    + assert (truthy (join [LF] (x :: xs)) = true) as ->.
      { destruct (truthy _) eqn:T; [done|]. apply truthy_nil_iff in T.
        by apply join_nil_inv in T. }
      assert (truthy (join [LF] (y :: ys)) = true) as ->.
      { destruct (truthy _) eqn:T; [done|]. apply truthy_nil_iff in T.
        by apply join_nil_inv in T. }
      simpl andb. cbv iota. by apply join_app_LF.
Qed.

Lemma splitlines_from_cover (P : char -> Prop) cur s :
  (forall c, islinebreak c = true -> P c) ->
  Forall (Forall P) (splitlines_from cur s) ->
  Forall P s /\ (s <> [] -> Forall P cur).
Proof.
  intros HP. remember (length s) as n eqn:Hn. revert s cur Hn.
  induction n as [n IH] using lt_wf_ind. intros s cur Hn H.
  destruct s as [|c rest]; [by split|]. simpl in Hn, H.
  destruct (islinebreak c) eqn:Ec.
  - assert (forall t, (length t < n)%nat ->
              Forall (Forall P) (cur :: splitlines_from [] t) ->
              Forall P t /\ Forall P cur) as K.
    { intros t Ht Hall. apply Forall_cons in Hall as [Hcur Hall].
      split; [|done]. by eapply (IH (length t) Ht t []). }
    destruct rest as [|c' rest'].
    + destruct (K [] ltac:(simpl in *; lia) H) as [_ Hcur].
      split; [|done]. constructor; [by apply HP | constructor].
    + destruct ((c =? CR)%N && (c' =? LF)%N) eqn:E.
      * destruct (K rest' ltac:(simpl in *; lia) H) as [Hr Hcur].
        split; [|done]. apply andb_true_iff in E as [_ E].
        apply N.eqb_eq in E. subst c'.
        constructor; [by apply HP|]. constructor; [by apply HP | done].
      * destruct (K (c' :: rest') ltac:(simpl in *; lia) H) as [Hr Hcur].
        split; [|done]. constructor; [by apply HP | done].
  - destruct rest as [|c' rest'].
    + simpl in H. destruct (cur ++ [c]) eqn:E; [by destruct cur|].
      apply Forall_cons in H as [H _]. rewrite <- E in H.
      apply Forall_app in H as [Hcur Hc]. split; [done | by intros _].
    + destruct (IH (length (c' :: rest')) ltac:(simpl in *; lia) (c' :: rest') (cur ++ [c]) eq_refl H)
        as [Hr Hcur].
      specialize (Hcur ltac:(done)). apply Forall_app in Hcur as [Hcur Hc].
      split; [|done]. constructor; [|done]. by apply Forall_cons in Hc as [? _].
Qed.

Lemma clean_nil_blank ls :
  clean ls = [] -> Forall (Forall (fun c => isspace c = true)) ls.
Proof.
  induction ls as [|l ls IH]; [constructor|].
  rewrite clean_cons. intros E. apply app_eq_nil in E as [E1 E2].
  constructor; [|by apply IH].
  apply strip_nil_blank. unfold clean in E1. rewrite filter_cons in E1.
  case_decide as T; [done|]. by destruct (strip l).
Qed.

Lemma clean_splitlines_nil s : clean (splitlines s) = [] -> strip s = [].
Proof.
  intros E. apply strip_blank.
  apply (splitlines_from_cover _ [] s linebreak_isspace).
  by apply clean_nil_blank.
Qed.

Lemma flat_map_nil_inv {A B} (f : A -> list B) xs :
  flat_map f xs = [] -> Forall (fun x => f x = []) xs.
Proof.
  induction xs as [|x xs IH]; [constructor|]. simpl.
  intros E. apply app_eq_nil in E as [E1 E2]. constructor; [done | by apply IH].
Qed.

(** X2: the transcript is empty exactly when every text is blank (empty
    or white space only). *)
Theorem text_summary_nil_iff (results : list OcrResult) :
  text_summary results = [] <-> Forall (fun r => strip (text r) = []) results.
Proof.
  rewrite text_summary_flat. split.
  - intros E. apply join_nil_inv in E; [|apply result_lines_clean].
    apply flat_map_nil_inv in E. eapply Forall_impl; [exact E|].
    intros r Hr. by apply clean_splitlines_nil.
  - intros H. replace (flat_map _ results) with (@nil str); [reflexivity|].
    induction H as [|r rs Hr _ IH]; [reflexivity|].
    simpl. by rewrite (clean_splitlines_blank _ Hr), <- IH.
Qed.

Lemma result_lines_chars results :
  Forall (Forall (fun c => islinebreak c = false
                           /\ exists r, r ∈ results /\ c ∈ text r))
         (flat_map (fun r => clean (splitlines (text r))) results).
Proof.
  induction results as [|r rs IH]; [constructor|].
  simpl. apply Forall_app. split.
  - apply clean_Forall, splitlines_from_Forall; [constructor|].
    apply Forall_forall. intros c Hc Hb. split; [done|].
    exists r. split; [apply list_elem_of_here | done].
  - eapply Forall_impl; [exact IH|]. intros l Hl.
    eapply Forall_impl; [exact Hl|]. intros c (Hb & r' & Hr' & Hc).
    split; [done|]. exists r'. split; [by apply list_elem_of_further | done].
Qed.

(** X3: the transcript holds no line boundary but the line feed, and
    every other character of it comes from the text of some result. *)
Theorem text_summary_chars (results : list OcrResult) :
  Forall (fun c => (islinebreak c = true -> c = LF)
                   /\ (c = LF \/ exists r, r ∈ results /\ c ∈ text r))
         (text_summary results).
Proof.
  rewrite text_summary_flat. apply join_Forall; [split; [done | by left]|].
  eapply Forall_impl; [apply result_lines_chars|]. intros l Hl.
  eapply Forall_impl; [exact Hl|]. intros c (Hb & Hr).
  split; [congruence | by right].
Qed.

Lemma join_head ls c :
  Forall clean_line ls -> head (join [LF] ls) = Some c -> isspace c = false.
Proof.
  intros H. destruct H as [|l ls (N & S & _) _]; [done|].
  assert (head (join [LF] (l :: ls)) = head l) as ->.
  { destruct ls; [done|]. rewrite join_cons_cons. by destruct l. }
  rewrite <- S. apply strip_head.
Qed.

Lemma join_last ls c :
  Forall clean_line ls -> last (join [LF] ls) = Some c -> isspace c = false.
Proof.
  induction 1 as [|l ls (N & S & _) Hls IH]; [done|].
  destruct ls as [|q rest].
  - simpl. rewrite <- S. apply strip_last.
  - rewrite join_cons_cons, !last_app.
    destruct (last (join [LF] (q :: rest))) as [y|] eqn:E; [exact IH|].
    apply last_None in E. by apply join_nil_inv in E.
Qed.

(** X4: the transcript as a whole carries no white space at its
    beginning or end. *)
Theorem text_summary_stripped (results : list OcrResult) :
  strip (text_summary results) = text_summary results.
Proof.
  destruct (text_summary_lines results) as (E & H & _). rewrite E.
  apply strip_fix; intros c.
  - by apply join_head.
  - by apply join_last.
Qed.

(** X5: a transcript given back as the text of one single result is
    reconstructed to itself. *)
Theorem text_summary_of_transcript (results : list OcrResult)
    (b : list (list Z)) (c : pyfloat) :
  text_summary [mkOcrResult b (text_summary results) c] = text_summary results.
Proof.
  rewrite (text_summary_flat [_]). simpl. rewrite app_nil_r.
  destruct (text_summary_lines results) as (E & H & S).
  rewrite S, clean_clean_lines by exact H. by rewrite E.
Qed.

(** X6: when every text is free of line boundaries and not blank, the
    transcript has exactly one line per result: its stripped text, in
    the order of the results. *)
Theorem text_summary_line_per_result (results : list OcrResult) :
  Forall (fun r => nobreak (text r) /\ strip (text r) <> []) results ->
  splitlines (text_summary results) = map (fun r => strip (text r)) results.
Proof.
  intros H.
  assert (flat_map (fun r => clean (splitlines (text r))) results
          = map (fun r => strip (text r)) results) as E.
  { induction H as [|r rs (B & N) _ IH]; [reflexivity|].
    simpl. rewrite IH.
    assert (splitlines (text r) = [text r]) as ->.
    { unfold splitlines. rewrite <- (app_nil_r (text r)) at 1.
      rewrite splitlines_from_nobreak by exact B. simpl.
      destruct (text r); [|done]. by destruct N. }
    unfold clean. rewrite filter_cons.
    destruct (strip (text r)) eqn:St; [done|]. simpl. by rewrite St. }
  rewrite text_summary_flat, E, <- E.
  apply splitlines_join, result_lines_clean.
Qed.

Lemma text_summary_line_per_result_witness :
  splitlines (text_summary [mkOcrResult [] (u "Total: 12") f_0_91;
                            mkOcrResult [] (u "Total: 12") f_0_40;
                            mkOcrResult [] (u "VAT") f_0_91])
  = [u "Total: 12"; u "Total: 12"; u "VAT"].
Proof.
  apply (text_summary_line_per_result
           [mkOcrResult [] (u "Total: 12") f_0_91;
            mkOcrResult [] (u "Total: 12") f_0_40;
            mkOcrResult [] (u "VAT") f_0_91]).
  repeat constructor; try (vm_compute; discriminate).
Defined.

Lemma clean_single_strip a b : strip a = strip b -> clean [a] = clean [b].
Proof.
  intros E. unfold clean. rewrite !filter_cons, E.
  case_decide; simpl; [by rewrite E | done].
Qed.

Lemma clean_single_blank cur :
  Forall (fun c => isspace c = true) cur -> clean [cur] = [].
Proof. intros H. apply clean_blank. by constructor. Qed.

Lemma clean_splitlines_from_blank_prefix w cur s :
  Forall (fun c => isspace c = true) w ->
  clean (splitlines_from (w ++ cur) s) = clean (splitlines_from cur s).
Proof.
  intros W. revert cur. induction s as [|c rest IH]; intros cur.
  - simpl. rewrite !clean_pending. apply clean_single_strip.
    by apply strip_app_blank_l.
  - assert (forall X, clean ((w ++ cur) :: X) = clean (cur :: X)) as K.
    { intros X. rewrite (clean_cons (w ++ cur)), (clean_cons cur). f_equal.
      apply clean_single_strip. by apply strip_app_blank_l. }
    simpl. destruct (islinebreak c).
    + destruct rest as [|c' rest']; [apply K|].
      destruct ((c =? CR)%N && (c' =? LF)%N); apply K.
    + rewrite <- app_assoc. apply IH.
Qed.

Lemma not_space_not_break c : isspace c = false -> islinebreak c = false.
Proof.
  intros H. destruct (islinebreak c) eqn:E; [|done].
  apply linebreak_isspace in E. congruence.
Qed.

Lemma clean_splitlines_from_lstrip cur s :
  Forall (fun c => isspace c = true) cur ->
  clean (splitlines_from cur s) = clean (splitlines (lstrip s)).
Proof.
  remember (length s) as n eqn:Hn. revert s cur Hn.
  induction n as [n IH] using lt_wf_ind. intros s cur Hn Hcur.
  destruct s as [|c rest].
  - simpl. rewrite clean_pending. by apply clean_single_blank.
  - simpl lstrip. destruct (isspace c) eqn:Sc.
    + simpl in Hn. simpl splitlines_from. destruct (islinebreak c) eqn:Bc.
      * assert (forall t, (length t < n)%nat -> lstrip t = lstrip rest ->
                  clean (cur :: splitlines_from [] t) = clean (splitlines (lstrip rest))) as K.
        { intros t Ht Et. rewrite clean_cons, clean_single_blank by done.
          rewrite <- Et. simpl. by eapply IH. }
        destruct rest as [|c' rest']; [apply K; [lia|done]|].
        destruct ((c =? CR)%N && (c' =? LF)%N) eqn:E.
        -- apply K; [simpl in *; lia|]. apply andb_true_iff in E as [_ E].
           apply N.eqb_eq in E. by subst c'.
        -- apply K; [simpl in *; lia | done].
      * eapply IH; [|reflexivity|]; [lia|].
        apply Forall_app. split; [done|]. by repeat constructor.
    + rewrite <- (app_nil_r cur). by apply clean_splitlines_from_blank_prefix.
Qed.

Lemma clean_splitlines_from_blank cur w :
  Forall (fun c => isspace c = true) w ->
  clean (splitlines_from cur w) = clean [cur].
Proof.
  remember (length w) as n eqn:Hn. revert w cur Hn.
  induction n as [n IH] using lt_wf_ind. intros w cur Hn W.
  destruct w as [|c rest].
  - simpl. apply clean_pending.
  - apply Forall_cons in W as [Wc Wr]. simpl in Hn. simpl.
    destruct (islinebreak c).
    + assert (forall t, (length t < n)%nat -> Forall (fun c => isspace c = true) t ->
                clean (cur :: splitlines_from [] t) = clean [cur]) as K.
      { intros t Ht Wt. rewrite clean_cons.
        rewrite (IH (length t) Ht t [] eq_refl Wt). apply app_nil_r. }
      destruct rest as [|c' rest']; [apply K; [lia|constructor]|].
      destruct ((c =? CR)%N && (c' =? LF)%N).
      * apply K; [simpl in *; lia|]. by apply Forall_cons in Wr as [_ ?].
      * apply K; [simpl in *; lia | done].
    + rewrite (IH (length rest) ltac:(lia) rest (cur ++ [c]) eq_refl Wr).
      apply clean_single_strip, strip_app_blank_r. by repeat constructor.
Qed.

Lemma clean_splitlines_from_blank_suffix cur s w :
  Forall (fun c => isspace c = true) w ->
  clean (splitlines_from cur (s ++ w)) = clean (splitlines_from cur s).
Proof.
  intros W. remember (length s) as n eqn:Hn. revert s cur Hn.
  induction n as [n IH] using lt_wf_ind. intros s cur Hn.
  destruct s as [|c rest].
  - rewrite app_nil_l, clean_splitlines_from_blank by done.
    simpl. by rewrite clean_pending.
  - simpl in Hn. cbn [app splitlines_from]. destruct (islinebreak c).
    + assert (forall t, (length t < n)%nat ->
                clean (cur :: splitlines_from [] (t ++ w))
                = clean (cur :: splitlines_from [] t)) as K.
      { intros t Ht. rewrite clean_cons, (clean_cons cur (splitlines_from [] t)).
        f_equal. by eapply IH. }
      destruct rest as [|c' rest'].
      * rewrite app_nil_l.
        assert (forall t, Forall (fun c => isspace c = true) t ->
                  clean (cur :: splitlines_from [] t) = clean (cur :: splitlines_from [] [])) as K0.
        { intros t Wt. rewrite clean_cons, clean_splitlines_from_blank by done.
          change (clean [[]]) with (@nil str). apply app_nil_r. }
        destruct w as [|c' w']; [done|].
        destruct ((c =? CR)%N && (c' =? LF)%N); apply K0; [|done].
        by apply Forall_cons in W as [_ ?].
      * cbn [app]. destruct ((c =? CR)%N && (c' =? LF)%N).
        -- apply K. simpl in *. lia.
        -- apply (K (c' :: rest')). simpl in *. lia.
    + eapply IH; [|reflexivity]. lia.
Qed.

(** Stripping a text does not change its clean lines. *)
Lemma clean_splitlines_strip t :
  clean (splitlines (strip t)) = clean (splitlines t).
Proof.
  transitivity (clean (splitlines (lstrip t))).
  - destruct (rstrip_split (lstrip t)) as (w & E & W). fold (strip t) in E.
    rewrite E. unfold splitlines. symmetry.
    by apply clean_splitlines_from_blank_suffix.
  - symmetry. apply (clean_splitlines_from_lstrip [] t). constructor.
Qed.

(** X7: the transcript of the normalised results can be read off the raw
    texts: it is the join of the clean lines of each raw text, so the
    stripping done by [perform_ocr] changes nothing in it. *)
Theorem text_summary_of_raw_texts (raw : list RawDetection) (res : list OcrResult) :
  perform_ocr raw = Ok res ->
  text_summary res
  = join [LF] (flat_map (fun r => clean (splitlines (raw_text r))) raw).
Proof.
  intros H. apply perform_ocr_Ok in H. rewrite text_summary_flat. f_equal.
  induction H as [|r o raw res (_ & Ht & _) _ IH]; [reflexivity|].
  simpl. by rewrite Ht, clean_splitlines_strip, IH.
Qed.

Lemma text_summary_of_raw_texts_witness :
  text_summary [mkOcrResult [[0; 0]] (u "a" ++ [CR; LF] ++ u " b") f_0_91;
                mkOcrResult [] [] f_0_40]
  = join [LF] (flat_map (fun r => clean (splitlines (raw_text r)))
       [mkRaw [[PyInt 0; PyInt 0]] ([LF] ++ u " a" ++ [CR; LF] ++ u " b " ++ [CR]) (PyFloat f_0_91);
        mkRaw [] [LF; 0x2028%N] (PyFloat f_0_40)]).
Proof.
  apply (text_summary_of_raw_texts
    [mkRaw [[PyInt 0; PyInt 0]] ([LF] ++ u " a" ++ [CR; LF] ++ u " b " ++ [CR]) (PyFloat f_0_91);
     mkRaw [] [LF; 0x2028%N] (PyFloat f_0_40)]).
  vm_compute. reflexivity.
Defined.

(** ** More about normalisation *)

Lemma mapM_app_pyres {A B} (f : A -> pyres B) xs ys :
  mapM f (xs ++ ys)
  = match mapM f xs with
    | Ok rx => match mapM f ys with Ok ry => Ok (rx ++ ry) | Raise e => Raise e end
    | Raise e => Raise e
    end.
Proof.
  induction xs as [|x xs IH]; simpl.
  - by destruct (mapM f ys).
  - unfold mbind, pyres_bind in *. destruct (f x); [|reflexivity].
    rewrite IH. destruct (mapM f xs); [|reflexivity].
    by destruct (mapM f ys).
Qed.

(** X8: normalising two raw sequences put end to end gives the two
    normalised sequences end to end; an exception of the first part, or
    else of the second, is the exception of the whole. *)
Theorem perform_ocr_app (a b : list RawDetection) :
  perform_ocr (a ++ b)
  = match perform_ocr a with
    | Ok ra => match perform_ocr b with Ok rb => Ok (ra ++ rb) | Raise e => Raise e end
    | Raise e => Raise e
    end.
Proof. apply mapM_app_pyres. Qed.

(** X9: the call raises the exception of the first raw detection that
    does not convert, whatever comes after it. *)
Theorem perform_ocr_first_failure (good : list RawDetection) (bad : RawDetection)
    (rest : list RawDetection) (e : exn) :
  forallb coercible good = true ->
  to_result bad = Raise e ->
  perform_ocr (good ++ bad :: rest) = Raise e.
Proof.
  intros Hg Hb. unfold perform_ocr. rewrite mapM_app_pyres.
  assert (is_Ok (mapM to_result good) = true) as G.
  { rewrite mapM_is_Ok. rewrite <- Hg. clear.
    induction good as [|r g IH]; [reflexivity|]. simpl.
    by rewrite to_result_is_Ok, IH. }
  destruct (mapM to_result good); [|done].
  simpl. unfold mbind, pyres_bind. by rewrite Hb.
Qed.

Lemma perform_ocr_first_failure_witness :
  perform_ocr
    ([mkRaw [[PyInt 0; PyInt 0]] (u "a") (PyFloat f_0_91)]
     ++ mkRaw [[PyFloat (Inf false); PyFloat NaN]] (u "b") PyNone
     :: [mkRaw [[PyFloat NaN; PyInt 0]] (u "c") (PyFloat f_0_91)])
  = Raise OverflowError.
Proof.
  apply (perform_ocr_first_failure
           [mkRaw [[PyInt 0; PyInt 0]] (u "a") (PyFloat f_0_91)]
           (mkRaw [[PyFloat (Inf false); PyFloat NaN]] (u "b") PyNone)
           [mkRaw [[PyFloat NaN; PyInt 0]] (u "c") (PyFloat f_0_91)]);
    reflexivity.
Defined.

Lemma int_to_float_exact z : Z.abs z < 2 ^ 53 -> int_to_float z = Ok (Finite z 0).
Proof.
  intros H. unfold int_to_float.
  destruct (Z.abs z =? 0) eqn:E; [reflexivity|].
  apply Z.eqb_neq in E.
  assert (Z.log2 (Z.abs z) < 53) by (apply Z.log2_lt_pow2; lia).
  replace (Z.log2 (Z.abs z) + 1 <=? 53) with true; [reflexivity|].
  symmetry. apply Z.leb_le. lia.
Qed.

(** X10: the confidence is handed through.  A float comes back as it
    is, whatever its value (outside [[0, 1]], infinite or NaN), and an
    integer below [2^53] in magnitude comes back as the same number. *)
Theorem confidence_passes_through (raw : list RawDetection) (res : list OcrResult) :
  perform_ocr raw = Ok res ->
  Forall2 (fun r o =>
             match raw_confidence r with
             | PyFloat f => confidence o = f
             | PyInt z => Z.abs z < 2 ^ 53 -> confidence o = Finite z 0
             | PyNone => False
             end) raw res.
Proof.
  intros H. apply perform_ocr_Ok in H. eapply Forall2_impl; [exact H|].
  intros r o (_ & _ & Hc). destruct (raw_confidence r) as [z|f|]; simpl in Hc.
  - intros Hz. rewrite int_to_float_exact in Hc by exact Hz. congruence.
  - congruence.
  - done.
Qed.

Lemma confidence_passes_through_witness :
  Forall2 (fun r o =>
             match raw_confidence r with
             | PyFloat f => confidence o = f
             | PyInt z => Z.abs z < 2 ^ 53 -> confidence o = Finite z 0
             | PyNone => False
             end)
    [mkRaw [] (u "a") (PyFloat (Finite (-7) (-1)));
     mkRaw [] (u "b") (PyFloat NaN);
     mkRaw [] (u "c") (PyInt 1)]
    [mkOcrResult [] (u "a") (Finite (-7) (-1));
     mkOcrResult [] (u "b") NaN;
     mkOcrResult [] (u "c") (Finite 1 0)].
Proof.
  apply (confidence_passes_through
    [mkRaw [] (u "a") (PyFloat (Finite (-7) (-1)));
     mkRaw [] (u "b") (PyFloat NaN);
     mkRaw [] (u "c") (PyInt 1)]).
  vm_compute. reflexivity.
Defined.

Lemma int_points_of_ints b : mapM int_point (map (map PyInt) b) = Ok b.
Proof.
  apply mapM_Ok. induction b as [|p b IH]; constructor; [|exact IH].
  apply mapM_Ok. clear. induction p as [|z p IH]; constructor; [reflexivity | exact IH].
Qed.

Lemma to_result_raw_of o :
  to_result (raw_of o) = Ok (mkOcrResult (bbox o) (strip (text o)) (confidence o)).
Proof.
  unfold to_result, raw_of. simpl. by rewrite int_points_of_ints.
Qed.

(** X11: normalisation is idempotent.  The results of a call, read back
    as raw detections, normalise to themselves. *)
Theorem perform_ocr_idempotent (raw : list RawDetection) (res : list OcrResult) :
  perform_ocr raw = Ok res ->
  perform_ocr (map raw_of res) = Ok res.
Proof.
  intros H. apply perform_ocr_Ok in H. apply mapM_Ok.
  induction H as [|r o raw res (_ & Ht & _) _ IH]; [constructor|].
  simpl. constructor; [|exact IH].
  rewrite to_result_raw_of, Ht, strip_idem, <- Ht. by destruct o.
Qed.

Lemma perform_ocr_idempotent_witness :
  perform_ocr (map raw_of [mkOcrResult [[3; 5]; [-3; 0]] (u "Invoice  #123") f_0_91;
                           mkOcrResult [] [] NaN])
  = Ok [mkOcrResult [[3; 5]; [-3; 0]] (u "Invoice  #123") f_0_91;
        mkOcrResult [] [] NaN].
Proof.
  apply (perform_ocr_idempotent
    [mkRaw [[PyFloat f_3_7; PyFloat f_5_2]; [PyFloat (Finite (-7) (-1)); PyInt 0]]
           (u "  Invoice  #123 " ++ [LF]) (PyFloat f_0_91);
     mkRaw [] (u "  ") (PyFloat NaN)]).
  vm_compute. reflexivity.
Defined.

(** ** More about the sidebar *)

(** X12: the language tuple handed to the engine is never empty, and it
    is the user's selection whenever that is not empty. *)
Theorem engine_languages_never_empty (ui : SidebarEdits) :
  engine_languages ui <> []
  /\ (forall chosen, edit_languages ui = Some chosen -> chosen <> [] ->
        engine_languages ui = chosen).
Proof.
  destruct ui as [[[|l ls]|] g i c]; split; try done.
  - intros chosen [= <-] H. done.
  - intros chosen [= <-] _. reflexivity.
Qed.

Lemma engine_languages_never_empty_witness :
  engine_languages (mkEdits (Some ["en"%string]) None (Some true) None) = ["en"%string].
Proof.
  apply (engine_languages_never_empty (mkEdits (Some ["en"%string]) None (Some true) None)).
  - reflexivity.
  - discriminate.
Defined.

(** ** More about the images *)

Lemma allocates_bind `{PIL} (m : M Image) (k : Image -> M Image) :
  allocates m -> (forall a, allocates (k a)) -> allocates (x <- m ;; k x).
Proof.
  intros Hm Hk s. destruct (Hm s) as [F1 N1]. unfold bind.
  destruct (m s) as [s1 [a|e]]; simpl in *; [|by split].
  destruct (Hk a s1) as [F2 N2]. split.
  - intros l p Hl. by apply F2, F1.
  - intros r Hr. specialize (N2 r Hr).
    destruct (s !! r) as [p|] eqn:E; [|done]. apply F1 in E. congruence.
Qed.

Lemma allocates_bind_ret `{PIL} (m : M Image) (k : Image -> M Image) :
  allocates m -> (forall a s, k a s = (s, Ok a)) -> allocates (x <- m ;; k x).
Proof.
  intros Hm Hk s. destruct (Hm s) as [F1 N1]. unfold bind.
  destruct (m s) as [s1 [a|e]]; simpl in *; [|by split].
  rewrite Hk. simpl. split; [done|]. intros r [= <-]. by apply N1.
Qed.

Lemma preprocess_image_steps_allocate `{PIL} (image : Image)
    (grayscale invert : bool) (contrast : pyfloat) :
  grayscale || invert || float_neb contrast f_1_0 = true ->
  allocates (preprocess_image image grayscale invert contrast).
Proof.
  assert (forall f im, allocates (new_from f im)) as A
    by (intros; apply allocates_new_from).
  unfold preprocess_image.
  destruct grayscale, invert, (float_neb contrast f_1_0); intros E; try discriminate.
  - apply allocates_bind; [apply A|]. intros p1.
    apply allocates_bind; [apply A|]. intros p2.
    apply allocates_bind_ret; [apply A | done].
  - apply allocates_bind; [apply A|]. intros p1.
    apply allocates_bind_ret; [apply A | done].
  - apply allocates_bind; [apply A|]. intros p1.
    apply (allocates_bind_ret (Contrast_enhance p1 contrast)); [apply A | done].
  - apply allocates_bind_ret; [apply A | done].
  - apply (allocates_bind (ImageOps_invert image)); [apply A|]. intros p2.
    apply allocates_bind_ret; [apply A | done].
  - apply (allocates_bind_ret (ImageOps_invert image)); [apply A | done].
  - apply (allocates_bind_ret (Contrast_enhance image contrast)); [apply A | done].
Qed.

Lemma preprocess_image_idle `{PIL} (image : Image) (grayscale invert : bool)
    (contrast : pyfloat) (s : store) :
  grayscale || invert || float_neb contrast f_1_0 = false ->
  preprocess_image image grayscale invert contrast s = (s, Ok image).
Proof.
  intros E. apply orb_false_iff in E as [E Ec]. apply orb_false_iff in E as [-> ->].
  unfold preprocess_image. by rewrite Ec.
Qed.

Lemma preprocess_image_keeps `{PIL} (image : Image) (grayscale invert : bool)
    (contrast : pyfloat) (s : store) l p :
  s !! l = Some p ->
  (preprocess_image image grayscale invert contrast s).1 !! l = Some p.
Proof.
  intros Hl. destruct (grayscale || invert || float_neb contrast f_1_0) eqn:E.
  - by apply (preprocess_image_steps_allocate image grayscale invert contrast E s).
  - by rewrite preprocess_image_idle.
Qed.

(** X13: [preprocess_image] changes no image of the store, whether it
    returns or raises.  When a step runs, the image it returns is a new
    one; when none runs, it is the input image itself and the store is
    as before. *)
Theorem preprocess_image_allocates `{PIL} (image : Image) (grayscale invert : bool)
    (contrast : pyfloat) (s : store) :
  (forall l p, s !! l = Some p ->
     (preprocess_image image grayscale invert contrast s).1 !! l = Some p)
  /\ (if grayscale || invert || float_neb contrast f_1_0
      then forall r, (preprocess_image image grayscale invert contrast s).2 = Ok r ->
                     s !! r = None
      else preprocess_image image grayscale invert contrast s = (s, Ok image)).
Proof.
  split; [intros l p; apply preprocess_image_keeps|].
  destruct (grayscale || invert || float_neb contrast f_1_0) eqn:E.
  - apply (preprocess_image_steps_allocate image grayscale invert contrast E s).
  - by apply preprocess_image_idle.
Qed.

Lemma preprocess_image_allocates_witness :
  (preprocess_image (H := row_PIL) 1%positive true true f_1_0
     {[1%positive := [10; 20; 30]]}).1 !! 1%positive
  = Some [10; 20; 30].
Proof.
  refine (proj1 (preprocess_image_allocates (H := row_PIL) 1%positive true true f_1_0
                   {[1%positive := [10; 20; 30]]}) 1%positive [10; 20; 30] _).
  vm_compute. reflexivity.
Defined.

Lemma computes_bind `{PIL} (r : pyres pixels) (f : pixels -> pyres pixels)
    (m : M Image) (k : Image -> M Image) (s : store) :
  computes r m s ->
  (forall px' s' i, s' !! i = Some px' -> computes (f px') (k i) s') ->
  computes (px' ← r; f px') (x <- m ;; k x) s.
Proof.
  intros Hm Hk. unfold computes, bind, mbind, pyres_bind in *.
  destruct r as [px'|e].
  - destruct Hm as (s' & i & E & L). rewrite E. by apply Hk.
  - destruct Hm as (s' & E). rewrite E. by eexists.
Qed.

Lemma computes_bind_ret `{PIL} (r : pyres pixels) (m : M Image) (s : store) :
  computes r m s -> computes r (x <- m ;; ret x) s.
Proof.
  unfold computes, bind, ret. destruct r as [px'|e].
  - intros (s' & i & E & L). rewrite E. by eexists _, _.
  - intros (s' & E). rewrite E. by eexists.
Qed.

Lemma computes_ret `{PIL} (px : pixels) (i : Image) (s : store) :
  s !! i = Some px -> computes (Ok px) (ret i) s.
Proof. intros L. by exists s, i. Qed.

Lemma computes_new_from `{PIL} (f : pixels -> pyres pixels) (im : Image)
    (s : store) (px : pixels) :
  s !! im = Some px -> computes (f px) (new_from f im) s.
Proof.
  intros Hi. unfold computes, new_from. rewrite Hi. destruct (f px) as [px'|e].
  - eexists _, _. split; [reflexivity|]. apply lookup_insert_eq.
  - by eexists.
Qed.

Lemma optional_step `{PIL} (b : bool) (f : pixels -> pyres pixels) (im : Image)
    (s : store) (px : pixels) :
  s !! im = Some px ->
  computes (if b then f px else Ok px) (if b then new_from f im else ret im) s.
Proof.
  intros Hi. destruct b; [by apply computes_new_from | by apply computes_ret].
Qed.

Lemma preprocess_image_computes_px `{PIL} (image : Image) (grayscale invert : bool)
    (contrast : pyfloat) (s : store) (px : pixels) :
  s !! image = Some px ->
  computes (preprocess_px grayscale invert contrast px)
           (preprocess_image image grayscale invert contrast) s.
Proof.
  intros Hi. unfold preprocess_px, preprocess_image.
  apply computes_bind.
  { apply (optional_step grayscale (fun p => Ok (px_convert "L" p)) image s px Hi). }
  intros p1 s1 i1 L1. apply computes_bind.
  { apply (optional_step invert px_invert i1 s1 p1 L1). }
  intros p2 s2 i2 L2.
  apply computes_bind_ret.
  apply (optional_step (float_neb contrast f_1_0) (px_contrast contrast) i2 s2 p2 L2).
Qed.

(** X14: the pixel data of the image [preprocess_image] returns is the
    grey-scale conversion, then the inversion, then the contrast
    enhancement of the input's pixel data, each one only if asked for;
    it raises exactly when one of the steps raises. *)
Theorem preprocess_image_computes `{PIL} (image : Image) (grayscale invert : bool)
    (contrast : pyfloat) (s : store) (px : pixels) :
  s !! image = Some px ->
  match preprocess_px grayscale invert contrast px with
  | Ok px' => exists s' r,
      preprocess_image image grayscale invert contrast s = (s', Ok r)
      /\ s' !! r = Some px'
  | Raise e => exists s',
      preprocess_image image grayscale invert contrast s = (s', Raise e)
  end.
Proof.
  intros Hi.
  pose proof (preprocess_image_computes_px image grayscale invert contrast s px Hi) as C.
  unfold computes in C. exact C.
Qed.

Lemma preprocess_image_computes_witness :
  exists s' r,
    preprocess_image (H := row_PIL) 1%positive true true f_1_0
      {[1%positive := [10; 20; 30]]} = (s', Ok r)
    /\ s' !! r = Some [245; 235; 225].
Proof.
  apply (preprocess_image_computes (H := row_PIL) 1%positive true true f_1_0
           {[1%positive := [10; 20; 30]]} [10; 20; 30]).
  vm_compute. reflexivity.
Defined.

Lemma draw_on_step `{PIL} (f : pixels -> pyres pixels) (im : Image) (s : store) px :
  s !! im = Some px ->
  draw_on f im s
  = match f px with
    | Ok px' => (<[im := px']> s, Ok tt)
    | Raise e => (s, Raise e)
    end.
Proof. intros Hi. unfold draw_on. by rewrite Hi. Qed.

Lemma draws_bind `{PIL} (r : pyres pixels) (f : pixels -> pyres pixels)
    (m : M unit) (k : M unit) (im : Image) (s : store) :
  draws r m im s ->
  (forall p s', s' !! im = Some p -> draws (f p) k im s') ->
  draws (p ← r; f p) (_ <- m ;; k) im s.
Proof.
  intros Hm Hk. unfold draws, bind, mbind, pyres_bind in *.
  destruct r as [p|e].
  - destruct Hm as (s' & E & L). rewrite E. by apply Hk.
  - destruct Hm as (s' & E). rewrite E. by eexists.
Qed.

Lemma draws_draw_on `{PIL} (f : pixels -> pyres pixels) (im : Image) (s : store) p :
  s !! im = Some p -> draws (f p) (draw_on f im) im s.
Proof.
  intros Hp. unfold draws. rewrite (draw_on_step f im s p Hp).
  destruct (f p) as [p'|e]; [|by eexists].
  eexists. split; [reflexivity|]. apply lookup_insert_eq.
Qed.

Lemma draw_result_step `{PIL} (preview : Image) (result : OcrResult) (s : store) p :
  s !! preview = Some p ->
  draws (render_one result p)
    (_ <- Draw_polygon preview (bbox result) "lime" ;;
     if truthy (text result) then
       xy <- lift (first_vertex (bbox result)) ;;
       Draw_text preview (xy.1, xy.2 - 12) (text result) "yellow"
     else ret tt) preview s.
Proof.
  intros Hp. unfold render_one. apply draws_bind; [by apply draws_draw_on|].
  intros p1 s1 L1. destruct (truthy (text result)).
  - unfold bind, lift, mbind, pyres_bind.
    destruct (first_vertex (bbox result)) as [xy|e]; [|by eexists].
    by apply draws_draw_on.
  - by exists s1.
Qed.

Lemma draw_results_loop `{PIL} (preview : Image) (results : list OcrResult)
    (s : store) p :
  s !! preview = Some p ->
  draws (render_px results p)
    (for_each results (fun result =>
       _ <- Draw_polygon preview (bbox result) "lime" ;;
       if truthy (text result) then
         xy <- lift (first_vertex (bbox result)) ;;
         Draw_text preview (xy.1, xy.2 - 12) (text result) "yellow"
       else ret tt)) preview s.
Proof.
  revert s p. induction results as [|r rs IH]; intros s p Hp.
  - by exists s.
  - cbn [render_px for_each]. apply draws_bind; [by apply draw_result_step|].
    intros p' s' L'. by apply IH.
Qed.

Lemma second_fresh_unused `{PIL} (s : store) (x : pixels) :
  s !! fresh (dom (<[fresh (dom s) := x]> s)) = None.
Proof.
  pose proof (fresh_unused (<[fresh (dom s) := x]> s)) as N.
  destruct (s !! fresh (dom (<[fresh (dom s) := x]> s))) eqn:E; [|done].
  rewrite lookup_insert_ne in N; [congruence|].
  intros Q. rewrite <- Q in E. by rewrite fresh_unused in E.
Qed.

Lemma draw_boxes_computes `{PIL} (image : Image) (results : list OcrResult)
    (s : store) (px : pixels) :
  s !! image = Some px ->
  match render_px results (px_convert "RGB" px) with
  | Ok out => exists s' preview,
      draw_boxes image results s = (s', Ok preview)
      /\ s' !! preview = Some out /\ s !! preview = None
  | Raise e => exists s', draw_boxes image results s = (s', Raise e)
  end.
Proof.
  intros Hi.
  pose proof (draw_results_loop
    (fresh (dom (<[fresh (dom s) := px_convert "RGB" px]> s))) results
    (<[fresh (dom (<[fresh (dom s) := px_convert "RGB" px]> s)) := px_convert "RGB" px]>
       (<[fresh (dom s) := px_convert "RGB" px]> s))
    (px_convert "RGB" px) (lookup_insert_eq _ _ _)) as L.
  unfold draws in L.
  assert (forall k : Image -> M Image,
            (converted <- Image_convert "RGB" image ;;
             preview <- Image_copy converted ;; k preview) s
            = k (fresh (dom (<[fresh (dom s) := px_convert "RGB" px]> s)))
                (<[fresh (dom (<[fresh (dom s) := px_convert "RGB" px]> s)) := px_convert "RGB" px]>
                   (<[fresh (dom s) := px_convert "RGB" px]> s))) as Start.
  { intros k. unfold bind, Image_convert, Image_copy.
    rewrite (new_from_Ok _ image s px (px_convert "RGB" px) Hi eq_refl).
    by rewrite (new_from_Ok Ok (fresh (dom s)) _ (px_convert "RGB" px) (px_convert "RGB" px)
                  (lookup_insert_eq _ _ _) eq_refl). }
  unfold draw_boxes. rewrite Start. clear Start. cbv beta.
  destruct (render_px results (px_convert "RGB" px)) as [out|e].
  - destruct L as (s' & E & Lo). unfold bind at 1. rewrite E.
    eexists _, _. split; [reflexivity|]. split; [exact Lo|].
    apply second_fresh_unused.
  - destruct L as (s' & E). unfold bind at 1. rewrite E. by eexists.
Qed.

(** X15: the image [draw_boxes] returns is a new one, and its pixel data
    is the RGB conversion of the base image with the results drawn on it
    one after the other, in their order: each outline, then its label
    twelve pixels above the first vertex unless the text is empty.  The
    call raises exactly when one of these drawing steps raises. *)
Theorem draw_boxes_renders `{PIL} (image : Image) (results : list OcrResult)
    (s : store) (px : pixels) :
  s !! image = Some px ->
  match render_px results (px_convert "RGB" px) with
  | Ok out => exists s' preview,
      draw_boxes image results s = (s', Ok preview)
      /\ s' !! preview = Some out /\ s !! preview = None
  | Raise e => exists s', draw_boxes image results s = (s', Raise e)
  end.
Proof. apply draw_boxes_computes. Qed.

Lemma draw_boxes_renders_witness :
  exists s' preview,
    draw_boxes (H := row_PIL) 1%positive
      [mkOcrResult [[0; 0]; [2; 0]; [2; 1]] [] f_0_91;
       mkOcrResult [[1; 0]; [3; 0]] (u "ab") f_0_40]
      {[1%positive := [10; 20; 30; 40]]} = (s', Ok preview)
    /\ s' !! preview = Some [255; 255; 255; 255]
    /\ ({[1%positive := [10; 20; 30; 40]]} : gmap positive (list Z)) !! preview = None.
Proof.
  apply (draw_boxes_renders (H := row_PIL) 1%positive
           [mkOcrResult [[0; 0]; [2; 0]; [2; 1]] [] f_0_91;
            mkOcrResult [[1; 0]; [3; 0]] (u "ab") f_0_40]
           {[1%positive := [10; 20; 30; 40]]} [10; 20; 30; 40]).
  vm_compute. reflexivity.
Defined.

(** ** The page *)

Lemma app_bind_st `{PIL} {B} (el : element) (k : unit -> App B) (w : world) :
  (x <~ st el ;; k x) w
  = k tt (mkWorld (images w) (container w) (page w ++ [(container w, el)])).
Proof. reflexivity. Qed.

Lemma app_bind_run `{PIL} {A B} (m : M A) (k : A -> App B) s c p s' a :
  m s = (s', Ok a) ->
  (x <~ run m ;; k x) (mkWorld s c p) = k a (mkWorld s' c p).
Proof. intros E. unfold app_bind, run. simpl. by rewrite E. Qed.

Lemma app_bind_run_raise `{PIL} {A B} (m : M A) (k : A -> App B) s c p s' e :
  m s = (s', Raise e) ->
  (x <~ run m ;; k x) (mkWorld s c p) = (mkWorld s' c p, Raised e).
Proof. intros E. unfold app_bind, run. simpl. by rewrite E. Qed.

Lemma app_bind_assoc `{PIL} {A B C} (m : App A) (k : A -> App B) (k' : B -> App C) w :
  (y <~ (x <~ m ;; k x) ;; k' y) w = (x <~ m ;; y <~ k x ;; k' y) w.
Proof. unfold app_bind. by destruct (m w) as [w' [a| |e]]. Qed.

Lemma st_image_shows `{PIL} {B} (im : Image) (k : unit -> App B) s c p px :
  s !! im = Some px ->
  (x <~ st_image im ;; k x) (mkWorld s c p)
  = k tt (mkWorld s c (p ++ [(c, Picture px)])).
Proof. intros E. unfold app_bind, st_image. simpl. by rewrite E. Qed.

Lemma main_prefix `{Host} (ui : SidebarEdits) (file : upload) (s : store)
    (px0 px1 : pixels) Reader readtext raw results :
  open_px file = Ok px0 ->
  preprocess_px (chosen_grayscale ui) (chosen_invert ui) (chosen_contrast ui) px0
  = Ok px1 ->
  easyocr_Reader = Some Reader ->
  Reader (engine_languages ui) = Ok readtext ->
  readtext px1 = Ok raw ->
  perform_ocr raw = Ok results ->
  exists s2 original processed,
    s2 !! original = Some px0 /\ s2 !! processed = Some px1
    /\ main ui (Some file) (mkWorld s Page [])
       = match results with
         | [] => st Warning
         | _ :: _ =>
             let txt := text_summary results in
             _ <~ within Column1 (
                    _ <~ st (Subheader HOriginal) ;;
                    _ <~ st_image original ;;
                    _ <~ st (Subheader HProcessed) ;;
                    st_image processed) ;;
             _ <~ within Column2 (
                    _ <~ st (Subheader HBoxes) ;;
                    preview <~ run (draw_boxes original results) ;;
                    _ <~ st_image preview ;;
                    _ <~ st (Subheader HExtracted) ;;
                    _ <~ st (TextArea txt) ;;
                    download_text_button txt "ocr_output.txt") ;;
             _ <~ st (Subheader HDetails) ;;
             let rows := map (fun result =>
                                mkRow (text result)
                                      (percent (confidence result))
                                      (bbox result)) results in
             _ <~ st (Dataframe rows) ;;
             st Caption
         end (mkWorld s2 Page [(Page, PageConfig); (Page, Title); (Page, Intro); (Page, Spinner)]).
Proof.
  intros Hopen Hpre Heasy Hreader Hread Hnorm.
  unfold main, engine_languages, chosen_grayscale, chosen_invert, chosen_contrast in *.
  destruct (build_sidebar ui) as [[[languages g] i] c]. simpl in Hpre, Hreader.
  rewrite !app_bind_st. cbn [images container page app].
  assert (Image_open file s = (<[fresh (dom s) := px0]> s, Ok (fresh (dom s)))) as E0.
  { unfold Image_open. by rewrite Hopen. }
  rewrite (app_bind_run _ _ _ _ _ _ _ E0). cbn [images container page].
  pose proof (preprocess_image_computes_px (fresh (dom s)) g i c
                (<[fresh (dom s) := px0]> s) px0 (lookup_insert_eq _ _ _)) as C.
  rewrite Hpre in C. destruct C as (s2 & processed & E1 & L1).
  pose proof (preprocess_image_keeps (fresh (dom s)) g i c
                (<[fresh (dom s) := px0]> s) _ _ (lookup_insert_eq _ _ _)) as K1.
  rewrite E1 in K1. simpl in K1.
  rewrite (app_bind_run _ _ _ _ _ _ _ E1). cbn [images container page].
  exists s2, (fresh (dom s)), processed. split; [exact K1|]. split; [exact L1|].
  rewrite app_bind_assoc, app_bind_st. cbn [images container page app].
  unfold perform_ocr_image, load_reader. rewrite Heasy.
  rewrite app_bind_assoc.
  rewrite (app_bind_run (lift (Reader languages)) _ s2 _ _ s2 readtext)
    by (unfold lift; by rewrite Hreader).
  rewrite app_bind_assoc.
  rewrite (app_bind_run _ _ s2 _ _ s2 px1) by (by rewrite L1).
  rewrite app_bind_assoc.
  rewrite (app_bind_run (lift (readtext px1)) _ s2 _ _ s2 raw)
    by (unfold lift; by rewrite Hread).
  by rewrite (app_bind_run (lift (perform_ocr raw)) _ s2 _ _ s2 results)
    by (unfold lift; by rewrite Hnorm).
Qed.

Lemma st_image_last `{PIL} (im : Image) s c p px :
  s !! im = Some px ->
  st_image im (mkWorld s c p) = (mkWorld s c (p ++ [(c, Picture px)]), Returned tt).
Proof. intros E. unfold st_image. simpl. by rewrite E. Qed.

Lemma app_bind_within `{PIL} {A B} (col : place) (body : App A) (k : A -> App B)
    s c p s' c' p' a :
  body (mkWorld s col p) = (mkWorld s' c' p', Returned a) ->
  (x <~ within col body ;; k x) (mkWorld s c p) = k a (mkWorld s' c p').
Proof. intros E. unfold app_bind, within. simpl. by rewrite E. Qed.

Lemma app_bind_within_raise `{PIL} {A B} (col : place) (body : App A) (k : A -> App B)
    s c p s' c' p' e :
  body (mkWorld s col p) = (mkWorld s' c' p', Raised e) ->
  (x <~ within col body ;; k x) (mkWorld s c p) = (mkWorld s' c p', Raised e).
Proof. intros E. unfold app_bind, within. simpl. by rewrite E. Qed.

Lemma main_run `{Host} (ui : SidebarEdits) (file : upload) (s : store)
    (px0 px1 : pixels) Reader readtext raw results :
  open_px file = Ok px0 ->
  preprocess_px (chosen_grayscale ui) (chosen_invert ui) (chosen_contrast ui) px0
  = Ok px1 ->
  easyocr_Reader = Some Reader ->
  Reader (engine_languages ui) = Ok readtext ->
  readtext px1 = Ok raw ->
  perform_ocr raw = Ok results ->
  exists s',
    main ui (Some file) (mkWorld s Page [])
    = match results with
      | [] =>
          (mkWorld s' Page
             [(Page, PageConfig); (Page, Title); (Page, Intro); (Page, Spinner);
              (Page, Warning)], Returned tt)
      | _ :: _ =>
          match render_px results (px_convert "RGB" px0) with
          | Ok out => (mkWorld s' Page (full_page px0 px1 out results), Returned tt)
          | Raise e =>
              (mkWorld s' Page
                 [(Page, PageConfig); (Page, Title); (Page, Intro); (Page, Spinner);
                  (Column1, Subheader HOriginal); (Column1, Picture px0);
                  (Column1, Subheader HProcessed); (Column1, Picture px1);
                  (Column2, Subheader HBoxes)], Raised e)
          end
      end.
Proof.
  intros Hopen Hpre Heasy Hreader Hread Hnorm.
  destruct (main_prefix ui file s px0 px1 Reader readtext raw results
              Hopen Hpre Heasy Hreader Hread Hnorm) as (s2 & original & processed & L0 & L1 & E).
  rewrite E. clear E. destruct results as [|r rs]; [by exists s2|].
  cbv zeta.
  erewrite app_bind_within; cycle 1.
  { rewrite app_bind_st, (st_image_shows _ _ _ _ _ px0 L0), app_bind_st. cbn [app].
    by rewrite (st_image_last _ _ _ _ px1 L1). }
  pose proof (draw_boxes_computes original (r :: rs) s2 px0 L0) as D.
  destruct (render_px (r :: rs) (px_convert "RGB" px0)) as [out|e].
  - destruct D as (s3 & preview & Ed & Lp & _). exists s3.
    erewrite app_bind_within; cycle 1.
    { rewrite app_bind_st. cbn [app].
      rewrite (app_bind_run _ _ _ _ _ _ _ Ed).
      rewrite (st_image_shows _ _ _ _ _ out Lp), !app_bind_st. cbn [app].
      reflexivity. }
    rewrite !app_bind_st. reflexivity.
  - destruct D as (s3 & Ed). exists s3.
    erewrite app_bind_within_raise; cycle 1.
    { rewrite app_bind_st. cbn [app].
      by rewrite (app_bind_run_raise _ _ _ _ _ _ _ Ed). }
    reflexivity.
Qed.


Lemma app_bind_stop `{PIL} {B} (k : unit -> App B) (w : world) :
  (x <~ st_stop ;; k x) w = (w, Stopped).
Proof. reflexivity. Qed.

Ltac no_download :=
  left; intros pl d f m Hin; cbn in Hin;
  repeat (apply elem_of_cons in Hin as [Hin|Hin]; [discriminate|]);
  by apply elem_of_nil in Hin.

Lemma main_pages `{Host} (ui : SidebarEdits) (uploaded_file : option upload) (s : store) :
  (forall pl d f m,
     (pl, DownloadButton d f m) ∉ page (main ui uploaded_file (mkWorld s Page [])).1)
  \/ exists px0 px1 out results,
       results <> []
       /\ page (main ui uploaded_file (mkWorld s Page [])).1
          = full_page px0 px1 out results.
Proof.
  unfold main. destruct (build_sidebar ui) as [[[languages g] i] c].
  rewrite !app_bind_st. cbn [images container page app].
  destruct uploaded_file as [file|]; [|no_download].
  destruct (Image_open file s) as [s1 [original|e]] eqn:E0;
    [rewrite (app_bind_run _ _ _ _ _ _ _ E0)
    |rewrite (app_bind_run_raise _ _ _ _ _ _ _ E0); no_download].
  destruct (preprocess_image original g i c s1) as [s2 [processed|e]] eqn:E1;
    [rewrite (app_bind_run _ _ _ _ _ _ _ E1)
    |rewrite (app_bind_run_raise _ _ _ _ _ _ _ E1); no_download].
  rewrite app_bind_assoc, app_bind_st. cbn [images container page app].
  unfold perform_ocr_image, load_reader.
  destruct easyocr_Reader as [Reader|];
    [|rewrite !app_bind_assoc, app_bind_st; no_download].
  rewrite app_bind_assoc.
  destruct (Reader languages) as [readtext|e] eqn:E2;
    [rewrite (app_bind_run (lift (Ok readtext)) _ s2 _ _ s2 readtext) by done
    |rewrite (app_bind_run_raise (lift (Raise e)) _ s2 _ _ s2 e) by done; no_download].
  rewrite app_bind_assoc.
  destruct (s2 !! processed) as [px1|] eqn:L1;
    [rewrite (app_bind_run _ _ s2 _ _ s2 px1) by (by rewrite L1)
    |rewrite (app_bind_run_raise _ _ s2 _ _ s2 ValueError) by (by rewrite L1);
     no_download].
  rewrite app_bind_assoc.
  destruct (readtext px1) as [raw|e] eqn:E3;
    [rewrite (app_bind_run (lift (Ok raw)) _ s2 _ _ s2 raw) by done
    |rewrite (app_bind_run_raise (lift (Raise e)) _ s2 _ _ s2 e) by done; no_download].
  destruct (perform_ocr raw) as [results|e] eqn:E4;
    [rewrite (app_bind_run (lift (Ok results)) _ s2 _ _ s2 results) by done
    |rewrite (app_bind_run_raise (lift (Raise e)) _ s2 _ _ s2 e) by done; no_download].
  destruct results as [|r rs]; [no_download|]. cbv zeta.
  destruct (s2 !! original) as [px0|] eqn:L0; cycle 1.
  { erewrite app_bind_within_raise; cycle 1.
    { rewrite app_bind_st. unfold app_bind, st_image. cbn [images]. by rewrite L0. }
    no_download. }
  erewrite app_bind_within; cycle 1.
  { rewrite app_bind_st, (st_image_shows _ _ _ _ _ px0 L0), app_bind_st. cbn [app].
    by rewrite (st_image_last _ _ _ _ px1 L1). }
  destruct (draw_boxes original (r :: rs) s2) as [s3 [preview|e]] eqn:E5; cycle 1.
  { erewrite app_bind_within_raise; cycle 1.
    { rewrite app_bind_st. by rewrite (app_bind_run_raise _ _ _ _ _ _ _ E5). }
    no_download. }
  destruct (s3 !! preview) as [out|] eqn:L5; cycle 1.
  { erewrite app_bind_within_raise; cycle 1.
    { rewrite app_bind_st, (app_bind_run _ _ _ _ _ _ _ E5).
      unfold app_bind, st_image. cbn [images]. by rewrite L5. }
    no_download. }
  erewrite app_bind_within; cycle 1.
  { rewrite app_bind_st. cbn [app].
    rewrite (app_bind_run _ _ _ _ _ _ _ E5).
    rewrite (st_image_shows _ _ _ _ _ out L5), !app_bind_st. cbn [app].
    reflexivity. }
  right. exists px0, px1, out, (r :: rs). split; [done|].
  rewrite !app_bind_st. reflexivity.
Qed.


Lemma text_summary_blank results :
  Forall (fun r => strip (text r) = []) results -> text_summary results = [].
Proof.
  intros H. rewrite text_summary_flat.
  replace (flat_map _ results) with (@nil str); [reflexivity|].
  induction H as [|r rs Hr _ IH]; [reflexivity|].
  simpl. by rewrite (clean_splitlines_blank _ Hr), <- IH.
Qed.

(** X16: a run of [main] on an uploaded file that decodes, with every
    step succeeding.  The engine reads the preprocessed pixel data; with
    no detection the page ends with the warning; otherwise it shows the
    original, the preprocessed image, the overlay drawn on the original
    (not on the preprocessed image), the transcript, its download and the
    table; when drawing raises, the run ends there with that exception. *)
Theorem main_shows_pipeline `{Host} (ui : SidebarEdits) (file : upload) (s : store)
    (px0 px1 : pixels) Reader readtext raw results :
  open_px file = Ok px0 ->
  preprocess_px (chosen_grayscale ui) (chosen_invert ui) (chosen_contrast ui) px0
  = Ok px1 ->
  easyocr_Reader = Some Reader ->
  Reader (engine_languages ui) = Ok readtext ->
  readtext px1 = Ok raw ->
  perform_ocr raw = Ok results ->
  match results with
  | [] =>
      page (main ui (Some file) (mkWorld s Page [])).1
      = [(Page, PageConfig); (Page, Title); (Page, Intro); (Page, Spinner);
         (Page, Warning)]
      /\ (main ui (Some file) (mkWorld s Page [])).2 = Returned tt
  | _ :: _ =>
      match render_px results (px_convert "RGB" px0) with
      | Ok out =>
          page (main ui (Some file) (mkWorld s Page [])).1
          = full_page px0 px1 out results
          /\ (main ui (Some file) (mkWorld s Page [])).2 = Returned tt
      | Raise e =>
          page (main ui (Some file) (mkWorld s Page [])).1
          = [(Page, PageConfig); (Page, Title); (Page, Intro); (Page, Spinner);
             (Column1, Subheader HOriginal); (Column1, Picture px0);
             (Column1, Subheader HProcessed); (Column1, Picture px1);
             (Column2, Subheader HBoxes)]
          /\ (main ui (Some file) (mkWorld s Page [])).2 = Raised e
      end
  end.
Proof.
  intros Hopen Hpre Heasy Hreader Hread Hnorm.
  destruct (main_run ui file s px0 px1 Reader readtext raw results
              Hopen Hpre Heasy Hreader Hread Hnorm) as (s' & E).
  rewrite E. destruct results as [|r rs]; [by split|].
  by destruct (render_px (r :: rs) (px_convert "RGB" px0)).
Qed.

Lemma main_shows_pipeline_witness :
  page (main (H0 := row_Host) row_ui (Some [10; 150; 30]) (mkWorld ∅ Page [])).1
  = full_page (H0 := row_Host) [10; 150; 30] [245; 105; 225] [10; 150; 30]
      [mkOcrResult [[245; 0]; [245; 1]] [] f_0_91;
       mkOcrResult [[105; 0]; [105; 1]] (u "hi") f_0_91;
       mkOcrResult [[225; 0]; [225; 1]] [] f_0_91]
  /\ (main (H0 := row_Host) row_ui (Some [10; 150; 30]) (mkWorld ∅ Page [])).2
     = Returned tt.
Proof.
  apply (main_shows_pipeline (H0 := row_Host) row_ui [10; 150; 30] ∅
           [10; 150; 30] [245; 105; 225] row_Reader row_readtext
           [mkRaw [[PyInt 245; PyInt 0]; [PyInt 245; PyInt 1]] (u "  ") (PyFloat f_0_91);
            mkRaw [[PyInt 105; PyInt 0]; [PyInt 105; PyInt 1]] (u " hi ") (PyFloat f_0_91);
            mkRaw [[PyInt 225; PyInt 0]; [PyInt 225; PyInt 1]] (u "  ") (PyFloat f_0_91)]
           [mkOcrResult [[245; 0]; [245; 1]] [] f_0_91;
            mkOcrResult [[105; 0]; [105; 1]] (u "hi") f_0_91;
            mkOcrResult [[225; 0]; [225; 1]] [] f_0_91]);
    vm_compute; reflexivity.
Defined.

(** X17: detections whose texts are all blank are still results: the
    page shows an empty transcript and offers an empty file for
    download, and the warning is not shown. *)
Theorem main_blank_results_are_shown `{Host} (ui : SidebarEdits) (file : upload)
    (s : store) (px0 px1 out : pixels) Reader readtext raw results :
  open_px file = Ok px0 ->
  preprocess_px (chosen_grayscale ui) (chosen_invert ui) (chosen_contrast ui) px0
  = Ok px1 ->
  easyocr_Reader = Some Reader ->
  Reader (engine_languages ui) = Ok readtext ->
  readtext px1 = Ok raw ->
  perform_ocr raw = Ok results ->
  results <> [] ->
  Forall (fun r => strip (text r) = []) results ->
  render_px results (px_convert "RGB" px0) = Ok out ->
  (Column2, TextArea []) ∈ page (main ui (Some file) (mkWorld s Page [])).1
  /\ (Column2, DownloadButton [] "ocr_output.txt" "text/plain")
       ∈ page (main ui (Some file) (mkWorld s Page [])).1
  /\ (Page, Warning) ∉ page (main ui (Some file) (mkWorld s Page [])).1.
Proof.
  intros Hopen Hpre Heasy Hreader Hread Hnorm Hne Hblank Hdraw.
  destruct (main_run ui file s px0 px1 Reader readtext raw results
              Hopen Hpre Heasy Hreader Hread Hnorm) as (s' & E).
  rewrite E. destruct results as [|r rs]; [done|]. rewrite Hdraw.
  cbn [fst page]. unfold full_page. rewrite (text_summary_blank _ Hblank).
  split; [repeat first [apply list_elem_of_here | apply list_elem_of_further]|].
  split; [repeat first [apply list_elem_of_here | apply list_elem_of_further]|].
  intros Hin.
  repeat (apply elem_of_cons in Hin as [Hin|Hin]; [discriminate|]).
  by apply elem_of_nil in Hin.
Qed.

Lemma main_blank_results_are_shown_witness :
  (Column2, TextArea [])
    ∈ page (main (H0 := row_Host) row_ui (Some [10; 20; 30]) (mkWorld ∅ Page [])).1
  /\ (Column2, DownloadButton [] "ocr_output.txt" "text/plain")
       ∈ page (main (H0 := row_Host) row_ui (Some [10; 20; 30]) (mkWorld ∅ Page [])).1
  /\ (Page, Warning)
       ∉ page (main (H0 := row_Host) row_ui (Some [10; 20; 30]) (mkWorld ∅ Page [])).1.
Proof.
  apply (main_blank_results_are_shown (H0 := row_Host) row_ui [10; 20; 30] ∅
           [10; 20; 30] [245; 235; 225] [10; 20; 30] row_Reader row_readtext
           [mkRaw [[PyInt 245; PyInt 0]; [PyInt 245; PyInt 1]] (u "  ") (PyFloat f_0_91);
            mkRaw [[PyInt 235; PyInt 0]; [PyInt 235; PyInt 1]] (u "  ") (PyFloat f_0_91);
            mkRaw [[PyInt 225; PyInt 0]; [PyInt 225; PyInt 1]] (u "  ") (PyFloat f_0_91)]
           [mkOcrResult [[245; 0]; [245; 1]] [] f_0_91;
            mkOcrResult [[235; 0]; [235; 1]] [] f_0_91;
            mkOcrResult [[225; 0]; [225; 1]] [] f_0_91]);
    try (vm_compute; reflexivity).
  - discriminate.
  - repeat constructor.
Defined.

(** X18: on every run, whatever fails or not, a download button on the
    page offers exactly the text of the text area beside it, which is
    the transcript of a non-empty result list whose texts fill the
    table; the file is [ocr_output.txt], of type [text/plain]. *)
Theorem main_export_is_transcript `{Host} (ui : SidebarEdits)
    (uploaded_file : option upload) (s : store) pl d f m :
  (pl, DownloadButton d f m) ∈ page (main ui uploaded_file (mkWorld s Page [])).1 ->
  pl = Column2 /\ f = "ocr_output.txt"%string /\ m = "text/plain"%string
  /\ (Column2, TextArea d) ∈ page (main ui uploaded_file (mkWorld s Page [])).1
  /\ exists results,
       results <> [] /\ d = text_summary results
       /\ exists rows, (Page, Dataframe rows)
                         ∈ page (main ui uploaded_file (mkWorld s Page [])).1
                       /\ map cell_text rows = map text results.
Proof.
  intros Hin.
  destruct (main_pages ui uploaded_file s) as [No|(px0 & px1 & out & results & Hne & E)].
  - by apply No in Hin.
  - rewrite E in *. unfold full_page in Hin.
    repeat (apply elem_of_cons in Hin as [Hin|Hin]; [try discriminate|]);
      [|by apply elem_of_nil in Hin].
    injection Hin as -> -> -> ->.
    split; [done|]. split; [done|]. split; [done|].
    split; [unfold full_page;
            repeat first [apply list_elem_of_here | apply list_elem_of_further]|].
    exists results. split; [done|]. split; [done|].
    eexists. split; [unfold full_page;
                     repeat first [apply list_elem_of_here | apply list_elem_of_further]|].
    rewrite map_map. reflexivity.
Qed.

Lemma main_export_is_transcript_witness :
  Column2 = Column2 /\ "ocr_output.txt"%string = "ocr_output.txt"%string
  /\ "text/plain"%string = "text/plain"%string
  /\ (Column2, TextArea (u "hi"))
       ∈ page (main (H0 := row_Host) row_ui (Some [10; 150; 30]) (mkWorld ∅ Page [])).1
  /\ exists results,
       results <> [] /\ u "hi" = text_summary results
       /\ exists rows,
            (Page, Dataframe rows)
              ∈ page (main (H0 := row_Host) row_ui (Some [10; 150; 30]) (mkWorld ∅ Page [])).1
            /\ map cell_text rows = map text results.
Proof.
  apply (main_export_is_transcript (H0 := row_Host) row_ui (Some [10; 150; 30]) ∅
           Column2 (u "hi") "ocr_output.txt" "text/plain").
  vm_compute. repeat first [apply list_elem_of_here | apply list_elem_of_further].
Defined.

(** X19: without the EasyOCR module the run shows the error box after
    the spinner and is stopped: no picture, transcript or table is
    shown. *)
Theorem main_without_easyocr `{Host} (ui : SidebarEdits) (file : upload) (s : store)
    (px0 px1 : pixels) :
  open_px file = Ok px0 ->
  preprocess_px (chosen_grayscale ui) (chosen_invert ui) (chosen_contrast ui) px0
  = Ok px1 ->
  easyocr_Reader = None ->
  page (main ui (Some file) (mkWorld s Page [])).1
  = [(Page, PageConfig); (Page, Title); (Page, Intro); (Page, Spinner);
     (Page, ErrorBox)]
  /\ (main ui (Some file) (mkWorld s Page [])).2 = Stopped.
Proof.
  intros Hopen Hpre Heasy.
  unfold main, chosen_grayscale, chosen_invert, chosen_contrast in *.
  destruct (build_sidebar ui) as [[[languages g] i] c]. simpl in Hpre.
  rewrite !app_bind_st. cbn [images container page app].
  assert (Image_open file s = (<[fresh (dom s) := px0]> s, Ok (fresh (dom s)))) as E0.
  { unfold Image_open. by rewrite Hopen. }
  rewrite (app_bind_run _ _ _ _ _ _ _ E0).
  pose proof (preprocess_image_computes_px (fresh (dom s)) g i c
                (<[fresh (dom s) := px0]> s) px0 (lookup_insert_eq _ _ _)) as C.
  rewrite Hpre in C. destruct C as (s2 & processed & E1 & L1).
  rewrite (app_bind_run _ _ _ _ _ _ _ E1).
  rewrite app_bind_assoc, app_bind_st. cbn [images container page app].
  unfold perform_ocr_image, load_reader. rewrite Heasy.
  rewrite !app_bind_assoc, app_bind_st. by split.
Qed.

Lemma main_without_easyocr_witness :
  page (main (H0 := row_Host_bare) row_ui (Some [10; 150; 30]) (mkWorld ∅ Page [])).1
  = [(Page, PageConfig); (Page, Title); (Page, Intro); (Page, Spinner);
     (Page, ErrorBox)]
  /\ (main (H0 := row_Host_bare) row_ui (Some [10; 150; 30]) (mkWorld ∅ Page [])).2
     = Stopped.
Proof.
  apply (main_without_easyocr (H0 := row_Host_bare) row_ui [10; 150; 30] ∅
           [10; 150; 30] [245; 105; 225]); reflexivity.
Defined.
